(** * Asset view-model pipeline of the portfolio tracker

    A shallow embedding of [src/utils/assetUtils.ts] (sortAssets,
    filterAssets, updateAssetPrices, getSimilarAssets) and of the
    [processedAssets] memo of [src/screens/HomeScreen.tsx], followed by the
    properties the specification states about them.

    Conventions of the embedding.
    - A JavaScript [number] is an exact rational ([Q]).  The IEEE specials
      (NaN, the infinities, signed zero) and binary rounding error are outside
      the model; decimal rounding by [Math.round] is modelled exactly.  Where
      the exact product lies on or next to a rounding tie the host's double
      may land on the neighbouring cent: lemmas about the exact cent (the
      half-cent band of [updateAsset_price]) are facts of the rational model,
      and the theorems recorded for the two computed fields are about signs,
      ranges, the one-cent floor and the loss of sub-cent prices, which the
      doubles share.  Module [Binary64] replays the arithmetic on IEEE
      doubles where a result is read off a concrete input.
    - A JavaScript string is a [string] of 8-bit code units, compared code
      unit by code unit as [<] does; [toLowerCase] folds the ASCII letters
      (the host folds every cased letter, some by context).  The proofs use
      of the folding only that it keeps the empty string empty and every
      other string non-empty.
    - [Math.random] is an oracle [nat -> Q] read through a draw counter.
    - Arrays are [list]s of values; module [Store] adds object and array
      references where writes to an input are at stake. *)

From Stdlib Require Import List Bool Arith ZArith QArith Qround Lia Lqa.
From Stdlib Require Import Ascii String OrdersEx Permutation Sorted.
From Stdlib Require Import RelationClasses.
From Stdlib Require PrimFloat.
Import ListNotations.

Local Open Scope string_scope.
Local Open Scope list_scope.
Local Open Scope Z_scope.
Local Open Scope Q_scope.

(** ** Host functions on strings *)

Module JsString.

(** One code unit of [String.prototype.toLowerCase], ASCII range. *)
Definition lower_unit (c : ascii) : ascii :=
  let n := N_of_ascii c in
  if ((65 <=? n) && (n <=? 90))%N then ascii_of_N (n + 32) else c.

Fixpoint toLowerCase (s : string) : string :=
  match s with
  | EmptyString => EmptyString
  | String c t => String (lower_unit c) (toLowerCase t)
  end.

(** [s.includes(q)]: [q] occurs in [s] at some offset. *)
Fixpoint includes (s q : string) : bool :=
  prefix q s ||
  match s with
  | EmptyString => false
  | String _ t => includes t q
  end.

(** ToBoolean on a string: only the empty string is falsy. *)
Definition truthy (s : string) : bool :=
  match s with
  | EmptyString => false
  | String _ _ => true
  end.

(** The white space of [String.prototype.trim] in the 8-bit range:
    TAB, LF, VT, FF, CR, SPACE and NBSP. *)
Definition is_space (c : ascii) : bool :=
  let n := N_of_ascii c in
  (((9 <=? n) && (n <=? 13)) || (n =? 32) || (n =? 160))%N.

Fixpoint blank (s : string) : bool :=
  match s with
  | EmptyString => true
  | String c t => is_space c && blank t
  end.

End JsString.

Import JsString.

(** ** Data model ([src/types/index.ts]) *)

Definition number := Q.

Inductive AssetType := stock | crypto.

Record Asset := mkAsset {
  id : Z;
  name : string;
  symbol : string;
  type : AssetType;
  currentPrice : number;
  dailyChangePercent : number
}.

Inductive SortField := by_name | by_dailyChangePercent.
Inductive SortDirection := asc | desc.

(** [FilterType] is kept as the run-time string: the [default] arm of
    [filterAssets] is reachable with any value (the test suite passes
    ['unknown' as any]). *)
Definition FilterType := string.

Definition AssetType_eqb (a b : AssetType) : bool :=
  match a, b with
  | stock, stock | crypto, crypto => true
  | _, _ => false
  end.

(** [a < b], [a > b] and [a === b] on numbers. *)
Definition num_lt (a b : number) : bool :=
  match a ?= b with Lt => true | _ => false end.
Definition num_gt (a b : number) : bool := num_lt b a.
Definition num_eq (a b : number) : bool :=
  match a ?= b with Eq => true | _ => false end.

(** ** ECMAScript [Array.prototype.sort]

    The comparator returns a number; a positive result asks for its second
    argument to come first.  The sort is stable (ES2019), so on a consistent
    comparator its result is determined; insertion from the right is the
    reference algorithm used here. *)

Section JsSort.
Context {A : Type}.
Variable cmp : A -> A -> Z.

Fixpoint sort_insert (x : A) (l : list A) : list A :=
  match l with
  | [] => [x]
  | y :: t => if (0 <? cmp x y)%Z then y :: sort_insert x t else x :: l
  end.

Definition js_sort (l : list A) : list A := fold_right sort_insert [] l.

(** [in_order a b]: with [a] before [b], the comparator does not ask for a
    swap. *)
Definition in_order (a b : A) : Prop := (0 <? cmp a b)%Z = false.
End JsSort.

(** [Array.prototype.slice(0, end)] for an integral [end]: a negative [end]
    counts from the end of the array. *)
Definition slice0 {A : Type} (l : list A) (fin : Z) : list A :=
  let len := Z.of_nat (List.length l) in
  let final := if (fin <? 0)%Z then Z.max (len + fin) 0 else Z.min fin len in
  firstn (Z.to_nat final) l.

(** ** [src/utils/assetUtils.ts] *)

(** The comparator closure of [sortAssets]. *)
Definition compareAssets (field : SortField) (direction : SortDirection)
    (a b : Asset) : Z :=
  match field with
  | by_name =>
      let aValue := toLowerCase (name a) in
      let bValue := toLowerCase (name b) in
      match direction with
      | asc => if (aValue <? bValue)%string then (-1)%Z
               else if (bValue <? aValue)%string then 1%Z else 0%Z
      | desc => if (bValue <? aValue)%string then (-1)%Z
                else if (aValue <? bValue)%string then 1%Z else 0%Z
      end
  | by_dailyChangePercent =>
      let aValue := dailyChangePercent a in
      let bValue := dailyChangePercent b in
      match direction with
      | asc => if num_lt aValue bValue then (-1)%Z
               else if num_gt aValue bValue then 1%Z else 0%Z
      | desc => if num_gt aValue bValue then (-1)%Z
                else if num_lt aValue bValue then 1%Z else 0%Z
      end
  end.

Definition sortAssets (assets : list Asset) (field : SortField)
    (direction : SortDirection) : list Asset :=
  js_sort (compareAssets field direction) assets.

Definition filterAssets (assets : list Asset) (filterType : FilterType)
    : list Asset :=
  if (filterType =? "topGainers")%string then
    filter (fun asset => num_gt (dailyChangePercent asset) 0) assets
  else if (filterType =? "topLosers")%string then
    filter (fun asset => num_lt (dailyChangePercent asset) 0) assets
  else if (filterType =? "stocks")%string then
    filter (fun asset => AssetType_eqb (type asset) stock) assets
  else if (filterType =? "crypto")%string then
    filter (fun asset => AssetType_eqb (type asset) crypto) assets
  else assets.

(** [Math.round]: the nearest integer, ties towards +infinity. *)
Definition Math_round (x : number) : number := inject_Z (Qfloor (x + (1 # 2))).

(** The arrow function mapped by [updateAssetPrices]; [r] is the value
    [Math.random()] returned to it. *)
Definition updateAsset (r : number) (asset : Asset) : Asset :=
  let changePercent := (r - (1 # 2)) * 10 in
  let newPrice := currentPrice asset * (1 + changePercent / 100) in
  {| id := id asset;
     name := name asset;
     symbol := symbol asset;
     type := type asset;
     currentPrice := Math_round (newPrice * 100) / 100;
     dailyChangePercent := Math_round (changePercent * 100) / 100 |}.

(** [assets.map(...)]: the callback runs once per element, left to right,
    each run taking the next draw of the oracle. *)
Fixpoint updateAssetPrices (random : nat -> number) (k : nat)
    (assets : list Asset) : list Asset :=
  match assets with
  | [] => []
  | asset :: rest =>
      updateAsset (random k) asset :: updateAssetPrices random (S k) rest
  end.

(** [limit] is [None] when the caller leaves the argument out (or passes
    [undefined]): the default value 3 is then taken. *)
Definition getSimilarAssets (assets : list Asset) (currentAsset : Asset)
    (limit : option Z) : list Asset :=
  let limit := match limit with Some n => n | None => 3%Z end in
  slice0
    (filter (fun asset => negb (id asset =? id currentAsset)%Z
                          && AssetType_eqb (type asset) (type currentAsset))
            assets)
    limit.

(** ** [src/screens/HomeScreen.tsx] *)

(** The predicate of the search [filter] inside [processedAssets]. *)
Definition matchesQuery (searchQuery : string) (asset : Asset) : bool :=
  includes (toLowerCase (name asset)) (toLowerCase searchQuery)
  || includes (toLowerCase (symbol asset)) (toLowerCase searchQuery).

Definition processedAssets (assets : list Asset) (searchQuery : string)
    (sortField : SortField) (sortDirection : SortDirection)
    (filterType : FilterType) : list Asset :=
  let filtered := filterAssets assets filterType in
  let filtered :=
    if truthy searchQuery then filter (matchesQuery searchQuery) filtered
    else filtered in
  sortAssets filtered sortField sortDirection.

(** The search stage on its own: the conditional [filter] in the middle of
    [processedAssets]. *)
Definition searchAssets (assets : list Asset) (searchQuery : string)
    : list Asset :=
  if truthy searchQuery then filter (matchesQuery searchQuery) assets
  else assets.

(** ** The pipeline in the words of the specification

    Section 4.3 gives the search stage as the identity on an empty or blank
    query and otherwise as the assets whose case-folded name or symbol
    contains the case-folded query; section 4.6 gives the rendered sequence
    as [sort(search(filter(A, F), Q), S, D)].  The filter and sort stages are
    the functions of the code. *)

Definition spec_search (assets : list Asset) (query : string) : list Asset :=
  if blank query then assets
  else
    filter (fun asset =>
              includes (toLowerCase (name asset)) (toLowerCase query)
              || includes (toLowerCase (symbol asset)) (toLowerCase query))
           assets.

Definition spec_render (assets : list Asset) (filterType : FilterType)
    (query : string) (sortField : SortField) (sortDirection : SortDirection)
    : list Asset :=
  sortAssets (spec_search (filterAssets assets filterType) query)
             sortField sortDirection.

(** ** Vocabulary of the properties *)

(** [Subseq l1 l2]: [l1] is [l2] with some elements left out, the others in
    their order. *)
Inductive Subseq {A : Type} : list A -> list A -> Prop :=
| Subseq_nil : Subseq [] []
| Subseq_drop (x : A) (l1 l2 : list A) : Subseq l1 l2 -> Subseq l1 (x :: l2)
| Subseq_keep (x : A) (l1 l2 : list A) :
    Subseq l1 l2 -> Subseq (x :: l1) (x :: l2).

(** [q] occurs in [s] as a substring. *)
Definition Contains (s q : string) : Prop :=
  exists pre post : string, s = (pre ++ q ++ post)%string.

(** Two assets have equal keys under a sort field: equal case-folded names,
    or numerically equal dailyChangePercent. *)
Definition sameKey (field : SortField) (a b : Asset) : bool :=
  match field with
  | by_name => (toLowerCase (name a) =? toLowerCase (name b))%string
  | by_dailyChangePercent =>
      num_eq (dailyChangePercent a) (dailyChangePercent b)
  end.

(** The fields [updateAssetPrices] copies. *)
Definition sameIdentity (a b : Asset) : Prop :=
  id b = id a /\ name b = name a /\ symbol b = symbol a /\ type b = type a.

(** ** The object store

    Arrays and asset objects live in a store and are passed by reference, so
    that writing to the input of a function is expressible.  A computation
    threads the store and the number of [Math.random] draws made so far; it
    yields [None] on a dangling reference. *)

Module Store.

Definition ref := nat.

Record store := mkStore {
  objects : list Asset;
  arrays : list (list ref)
}.

Record state := mkState {
  heap : store;
  draws : nat
}.

Definition M (X : Type) : Type := state -> option (X * state).

Definition ret {X : Type} (x : X) : M X := fun s => Some (x, s).

Definition bind {X Y : Type} (m : M X) (f : X -> M Y) : M Y :=
  fun s => match m s with
           | Some (x, s') => f x s'
           | None => None
           end.

Notation "x <- m ;; k" := (bind m (fun x => k))
  (at level 61, m at next level, right associativity).

Definition readObject (r : ref) : M Asset :=
  fun s => match nth_error (objects (heap s)) r with
           | Some o => Some (o, s)
           | None => None
           end.

Definition readArray (a : ref) : M (list ref) :=
  fun s => match nth_error (arrays (heap s)) a with
           | Some l => Some (l, s)
           | None => None
           end.

(** An object literal: a fresh object, after all existing ones. *)
Definition newObject (o : Asset) : M ref :=
  fun s =>
    let h := heap s in
    Some (List.length (objects h),
          mkState (mkStore (objects h ++ [o]) (arrays h)) (draws s)).

Definition newArray (l : list ref) : M ref :=
  fun s =>
    let h := heap s in
    Some (List.length (arrays h),
          mkState (mkStore (objects h) (arrays h ++ [l])) (draws s)).

Definition Math_random (random : nat -> number) : M number :=
  fun s => Some (random (draws s), mkState (heap s) (S (draws s))).

(** The loop of [Array.prototype.map] over the elements read from an
    array. *)
Fixpoint mapM (f : ref -> M ref) (l : list ref) : M (list ref) :=
  match l with
  | [] => ret []
  | r :: t => r' <- f r ;; t' <- mapM f t ;; ret (r' :: t')
  end.

(** [updateAssetPrices] on references: the callback draws, reads its
    argument and builds the object literal; [map] collects the new
    references into a new array. *)
Definition updateAssetPrices_st (random : nat -> number) (assets : ref)
    : M ref :=
  elems <- readArray assets ;;
  out <- mapM (fun r =>
                 x <- Math_random random ;;
                 asset <- readObject r ;;
                 newObject (updateAsset x asset))
              elems ;;
  newArray out.

(** The values an array reference stands for. *)
Fixpoint deref (objs : list Asset) (l : list ref) : option (list Asset) :=
  match l with
  | [] => Some []
  | r :: t =>
      match nth_error objs r, deref objs t with
      | Some o, Some os => Some (o :: os)
      | _, _ => None
      end
  end.

Definition contents (h : store) (a : ref) : option (list Asset) :=
  match nth_error (arrays h) a with
  | Some l => deref (objects h) l
  | None => None
  end.

End Store.

(** ** The price arithmetic on IEEE doubles

    The expression that [updateAssetPrices] stores in [currentPrice], on the
    binary64 numbers of the host instead of rationals. *)

Module Binary64.
Import PrimFloat.
Local Open Scope float_scope.

Definition two52 : float := 4503599627370496.

(** The largest integer not above [x].  Below 2^52 in magnitude, adding and
    removing 2^52 gives the integer nearest to [x]; from 2^52 on every double
    is an integer. *)
Definition floor (x : float) : float :=
  if abs x <? two52 then
    let t := if 0 <=? x then (x + two52) - two52 else (x - two52) + two52 in
    if x <? t then t - 1 else t
  else x.

Definition Math_round (x : float) : float :=
  let f := floor x in
  if 0.5 <=? x - f then f + 1 else f.

(** [r] is the value of [Math.random()], [price] is [asset.currentPrice]. *)
Definition tickedPrice (r price : float) : float :=
  let changePercent := (r - 0.5) * 10 in
  let newPrice := price * (1 + changePercent / 100) in
  Math_round (newPrice * 100) / 100.

(** The expression stored in [dailyChangePercent]. *)
Definition tickedPercent (r : float) : float :=
  let changePercent := (r - 0.5) * 10 in
  Math_round (changePercent * 100) / 100.

End Binary64.

(** ** The rest of the two screens

    What [HomeScreen.tsx] and [AssetDetailScreen.tsx] compute besides
    [processedAssets]: the sort handler, the state the hooks hold and the
    events that change it, and the derived values of the detail screen. *)

(** [a >= b] on numbers. *)
Definition num_ge (a b : number) : bool := negb (num_lt a b).

Definition SortField_eqb (a b : SortField) : bool :=
  match a, b with
  | by_name, by_name | by_dailyChangePercent, by_dailyChangePercent => true
  | _, _ => false
  end.

Module HomeScreen.

(** The five [useState] cells of the component. *)
Record State := mkState {
  assets : list Asset;
  searchQuery : string;
  sortField : SortField;
  sortDirection : SortDirection;
  filterType : FilterType
}.

(** The initial values passed to [useState]. *)
Definition initialState (initialAssets : list Asset) : State :=
  mkState initialAssets "" by_name asc "all".

Definition handleSort (field : SortField) (s : State) : State :=
  if SortField_eqb (sortField s) field then
    mkState (assets s) (searchQuery s) (sortField s)
            (match sortDirection s with asc => desc | desc => asc end)
            (filterType s)
  else
    mkState (assets s) (searchQuery s) field asc (filterType s).

(** The five filter buttons and the mode each passes to [setFilterType]. *)
Inductive FilterButton := All | Gainers | Losers | Stocks | Crypto.

Definition buttonType (b : FilterButton) : FilterType :=
  match b with
  | All => "all"
  | Gainers => "topGainers"
  | Losers => "topLosers"
  | Stocks => "stocks"
  | Crypto => "crypto"
  end.

(** What can happen to the screen: the interval fires, the search box
    changes, a sort button or a filter button is pressed. *)
Inductive Event :=
| Tick
| ChangeText (text : string)
| PressSort (field : SortField)
| PressFilter (button : FilterButton).

(** One event, on the state and the number of [Math.random] draws made. *)
Definition step (random : nat -> number) (sk : State * nat) (e : Event)
    : State * nat :=
  let (s, k) := sk in
  match e with
  | Tick =>
      (mkState (updateAssetPrices random k (assets s)) (searchQuery s)
               (sortField s) (sortDirection s) (filterType s),
       (k + List.length (assets s))%nat)
  | ChangeText text =>
      (mkState (assets s) text (sortField s) (sortDirection s) (filterType s),
       k)
  | PressSort field => (handleSort field s, k)
  | PressFilter button =>
      (mkState (assets s) (searchQuery s) (sortField s) (sortDirection s)
               (buttonType button),
       k)
  end.

Definition run (random : nat -> number) (sk : State * nat)
    (events : list Event) : State * nat :=
  fold_left (step random) events sk.

(** The [data] of the list: the memo on the current state. *)
Definition rendered (s : State) : list Asset :=
  processedAssets (assets s) (searchQuery s) (sortField s) (sortDirection s)
                  (filterType s).

End HomeScreen.

Module AssetDetailScreen.

(** The [similarAssets] memo; it reads the imported data set, not the
    prices the home screen has updated. *)
Definition similarAssets (initialAssets : list Asset) (asset : Asset)
    : list Asset :=
  getSimilarAssets initialAssets asset (Some 3%Z).

Definition isPositive (asset : Asset) : bool :=
  num_ge (dailyChangePercent asset) 0.

(** The amount shown in the "Price Change" row, before [toFixed]. *)
Definition priceChange (asset : Asset) : number :=
  currentPrice asset * dailyChangePercent asset / 100.

(** The assets the screen can come to show: the one it was opened on, and
    any asset pressed in the similar list of an asset it shows
    ([handleSimilarAssetPress] replaces the route by that asset). *)
Inductive Shown (initialAssets : list Asset) (start : Asset)
    : Asset -> Prop :=
| Shown_start : Shown initialAssets start start
| Shown_press (a b : Asset) :
    Shown initialAssets start a ->
    In b (similarAssets initialAssets a) ->
    Shown initialAssets start b.

End AssetDetailScreen.

(** ** The stages on the object store

    [filterAssets], [sortAssets] and [processedAssets] on array references:
    [filter] and the spread [[...assets]] allocate an array, [sort] writes
    into the array it is called on and returns it, and the [default] arm of
    [filterAssets] returns the reference it was given.  The asset objects
    are read, never copied. *)

Module StoreStages.
Import Store.

Fixpoint replace_at {X : Type} (n : nat) (x : X) (l : list X) : list X :=
  match l, n with
  | [], _ => []
  | _ :: t, O => x :: t
  | y :: t, S n' => y :: replace_at n' x t
  end.

(** The elements of an existing array are overwritten. *)
Definition writeArray (a : ref) (l : list ref) : M unit :=
  fun s =>
    let h := heap s in
    match nth_error (arrays h) a with
    | Some _ =>
        Some (tt, mkState (mkStore (objects h) (replace_at a l (arrays h)))
                          (draws s))
    | None => None
    end.

(** The objects behind the elements, each with its reference. *)
Fixpoint readObjects (l : list ref) : M (list (ref * Asset)) :=
  match l with
  | [] => ret []
  | r :: t => o <- readObject r ;; rest <- readObjects t ;; ret ((r, o) :: rest)
  end.

(** [arr.filter(pred)]: a new array of the elements whose object passes. *)
Definition filterArray (pred : Asset -> bool) (a : ref) : M ref :=
  elems <- readArray a ;;
  pairs <- readObjects elems ;;
  newArray (map fst (filter (fun p => pred (snd p)) pairs)).

(** [arr.sort(cmp)]: the array is sorted in place and returned. *)
Definition sortArray (cmp : Asset -> Asset -> Z) (a : ref) : M ref :=
  elems <- readArray a ;;
  pairs <- readObjects elems ;;
  u <- writeArray a
         (map fst (js_sort (fun p q => cmp (snd p) (snd q)) pairs)) ;;
  ret a.

(** [[...arr]]: a new array with the same elements. *)
Definition spread (a : ref) : M ref :=
  elems <- readArray a ;; newArray elems.

Definition sortAssets_st (assets : ref) (field : SortField)
    (direction : SortDirection) : M ref :=
  copy <- spread assets ;;
  sortArray (compareAssets field direction) copy.

Definition filterAssets_st (assets : ref) (filterType : FilterType) : M ref :=
  if (filterType =? "topGainers")%string then
    filterArray (fun asset => num_gt (dailyChangePercent asset) 0) assets
  else if (filterType =? "topLosers")%string then
    filterArray (fun asset => num_lt (dailyChangePercent asset) 0) assets
  else if (filterType =? "stocks")%string then
    filterArray (fun asset => AssetType_eqb (type asset) stock) assets
  else if (filterType =? "crypto")%string then
    filterArray (fun asset => AssetType_eqb (type asset) crypto) assets
  else ret assets.

Definition processedAssets_st (assets : ref) (searchQuery : string)
    (sortField : SortField) (sortDirection : SortDirection)
    (filterType : FilterType) : M ref :=
  filtered <- filterAssets_st assets filterType ;;
  filtered <- (if truthy searchQuery
               then filterArray (matchesQuery searchQuery) filtered
               else ret filtered) ;;
  sortAssets_st filtered sortField sortDirection.

End StoreStages.

(** ** More vocabulary *)

(** The order of the keys of two assets that [sortAssets] is after. *)
Definition keyOrder (field : SortField) (direction : SortDirection)
    (a b : Asset) : Prop :=
  match field, direction with
  | by_name, asc =>
      (toLowerCase (name b) <? toLowerCase (name a))%string = false
  | by_name, desc =>
      (toLowerCase (name a) <? toLowerCase (name b))%string = false
  | by_dailyChangePercent, asc => dailyChangePercent a <= dailyChangePercent b
  | by_dailyChangePercent, desc => dailyChangePercent b <= dailyChangePercent a
  end.

(** The test [filterAssets] applies to an asset under a mode. *)
Definition keeps (filterType : FilterType) (asset : Asset) : bool :=
  if (filterType =? "topGainers")%string then
    num_gt (dailyChangePercent asset) 0
  else if (filterType =? "topLosers")%string then
    num_lt (dailyChangePercent asset) 0
  else if (filterType =? "stocks")%string then
    AssetType_eqb (type asset) stock
  else if (filterType =? "crypto")%string then
    AssetType_eqb (type asset) crypto
  else true.

(** The test the search stage applies to an asset under a query. *)
Definition found (searchQuery : string) (asset : Asset) : bool :=
  if truthy searchQuery then matchesQuery searchQuery asset else true.

(** The test [getSimilarAssets] applies to an asset of the collection. *)
Definition isPeer (currentAsset asset : Asset) : bool :=
  negb (id asset =? id currentAsset)%Z
  && AssetType_eqb (type asset) (type currentAsset).

(** [grows h h']: the store [h'] is [h] with arrays added; every object
    and every array of [h] is in [h'] as it was. *)
Definition grows (h h' : Store.store) : Prop :=
  Store.objects h' = Store.objects h
  /\ exists extra, Store.arrays h' = Store.arrays h ++ extra.

(** The modes under which [filterAssets] calls [filter]. *)
Definition selects (filterType : FilterType) : bool :=
  (filterType =? "topGainers")%string || (filterType =? "topLosers")%string
  || (filterType =? "stocks")%string || (filterType =? "crypto")%string.

(** How many times the interval fires in a list of events. *)
Fixpoint ticksIn (events : list HomeScreen.Event) : nat :=
  match events with
  | [] => 0%nat
  | HomeScreen.Tick :: rest => S (ticksIn rest)
  | _ :: rest => ticksIn rest
  end.

(** ** The fixtures of the test suites *)

Module Fixtures.
Definition apple := mkAsset 1 "Apple Inc." "AAPL" stock 150 (25 # 10).
Definition bitcoin := mkAsset 2 "Bitcoin" "BTC" crypto 45000 (-12 # 10).
Definition tesla := mkAsset 3 "Tesla Inc." "TSLA" stock 800 (58 # 10).
Definition ethereum := mkAsset 4 "Ethereum" "ETH" crypto 3000 (-31 # 10).
Definition microsoft :=
  mkAsset 5 "Microsoft Corporation" "MSFT" stock 300 (15 # 10).
Definition zero := mkAsset 999 "Zero Change Asset" "ZERO" stock 100 0.

(** Not in the test suites: a token quoted under half a cent, and two
    assets that tie with [microsoft] on dailyChangePercent and with each
    other on the case-folded name. *)
Definition subcent := mkAsset 6 "Shiba Inu" "SHIB" crypto (1 # 1000) (21 # 10).
Definition acme := mkAsset 7 "ACME Corp" "ACME" stock 20 (15 # 10).
Definition acme' := mkAsset 8 "Acme corp" "ACM" stock 30 (3 # 2).

Definition mockAssets := [apple; bitcoin; tesla; ethereum].
Definition mockAssets5 := [apple; bitcoin; tesla; ethereum; microsoft].
End Fixtures.

(** A sequence of draws for the examples: 0, 1/8, ..., 7/8, and again. *)
Definition eighths (n : nat) : number := Z.of_nat (n mod 8) # 8.

Module UnitTests.
Import Fixtures.

Example sort_name_asc :
  sortAssets mockAssets by_name asc = [apple; bitcoin; ethereum; tesla].
Proof. reflexivity. Qed.

Example sort_name_desc :
  sortAssets mockAssets by_name desc = [tesla; ethereum; bitcoin; apple].
Proof. reflexivity. Qed.

Example sort_change_asc :
  sortAssets mockAssets by_dailyChangePercent asc
  = [ethereum; bitcoin; apple; tesla].
Proof. reflexivity. Qed.

Example sort_change_desc :
  sortAssets mockAssets by_dailyChangePercent desc
  = [tesla; apple; bitcoin; ethereum].
Proof. reflexivity. Qed.

Example filter_gainers :
  filterAssets mockAssets "topGainers" = [apple; tesla].
Proof. reflexivity. Qed.

Example filter_losers :
  filterAssets mockAssets "topLosers" = [bitcoin; ethereum].
Proof. reflexivity. Qed.

Example filter_unknown : filterAssets mockAssets "unknown" = mockAssets.
Proof. reflexivity. Qed.

Example filter_zero :
  filterAssets (mockAssets ++ [zero]) "topGainers" = [apple; tesla]
  /\ filterAssets (mockAssets ++ [zero]) "topLosers" = [bitcoin; ethereum].
Proof. split; reflexivity. Qed.

Example similar_apple : getSimilarAssets mockAssets apple (Some 2%Z) = [tesla].
Proof. reflexivity. Qed.

Example similar_limit :
  getSimilarAssets mockAssets5 tesla (Some 1%Z) = [apple].
Proof. reflexivity. Qed.

Example search_btc : searchAssets mockAssets5 "BTC" = [bitcoin].
Proof. reflexivity. Qed.

Example search_apple : searchAssets mockAssets5 "Apple" = [apple].
Proof. reflexivity. Qed.

Example pipeline_stocks_desc :
  processedAssets mockAssets5 "" by_dailyChangePercent desc "stocks"
  = [tesla; apple; microsoft].
Proof. reflexivity. Qed.

Example sort_ties_asc :
  sortAssets [acme; tesla; microsoft; apple; acme'] by_dailyChangePercent asc
  = [acme; microsoft; acme'; apple; tesla].
Proof. reflexivity. Qed.

Example sort_ties_desc :
  sortAssets [acme; tesla; microsoft; apple; acme'] by_dailyChangePercent desc
  = [tesla; apple; acme; microsoft; acme'].
Proof. reflexivity. Qed.

Example sort_ties_name_desc :
  sortAssets [acme; tesla; acme'; apple] by_name desc
  = [tesla; apple; acme; acme'].
Proof. reflexivity. Qed.

Example similar_default :
  getSimilarAssets mockAssets5 tesla None = [apple; microsoft].
Proof. reflexivity. Qed.

Example similar_empty : getSimilarAssets [] apple (Some 5%Z) = [].
Proof. reflexivity. Qed.

Example similar_negative_limit :
  getSimilarAssets mockAssets5 tesla (Some (-1)%Z) = [apple].
Proof. reflexivity. Qed.

Example search_space : searchAssets mockAssets5 " " = [apple; tesla; microsoft].
Proof. reflexivity. Qed.
End UnitTests.


(** ** Facts about the sort of the host *)

Section JsSortFacts.
Context {A : Type}.
Variable cmp : A -> A -> Z.

Lemma sort_insert_perm (x : A) (l : list A) :
  Permutation (sort_insert cmp x l) (x :: l).
Proof.
  induction l as [| y t IH]; simpl.
  - apply Permutation_refl.
  - destruct (0 <? cmp x y)%Z.
    + apply Permutation_trans with (y :: x :: t).
      * apply perm_skip, IH.
      * apply perm_swap.
    + apply Permutation_refl.
Qed.

Lemma js_sort_perm (l : list A) : Permutation (js_sort cmp l) l.
Proof.
  induction l as [| x t IH]; simpl.
  - apply perm_nil.
  - apply Permutation_trans with (x :: js_sort cmp t).
    + apply sort_insert_perm.
    + apply perm_skip, IH.
Qed.

Lemma js_sort_length (l : list A) :
  List.length (js_sort cmp l) = List.length l.
Proof. apply Permutation_length, js_sort_perm. Qed.

(** *** Stability: a class of mutually tied elements keeps its order *)

Section Stable.
Variable tied : A -> bool.
Hypothesis tied_in_order :
  forall x y, tied x = true -> tied y = true -> in_order cmp x y.

Lemma sort_insert_tied (x : A) (l : list A) :
  filter tied (sort_insert cmp x l) = filter tied (x :: l).
Proof.
  induction l as [| y t IH].
  - reflexivity.
  - cbn [sort_insert].
    destruct (0 <? cmp x y)%Z eqn:Hxy; [| reflexivity].
    cbn [filter] in *. rewrite IH.
    destruct (tied x) eqn:Hx, (tied y) eqn:Hy; try reflexivity.
    unfold in_order in tied_in_order.
    rewrite (tied_in_order x y Hx Hy) in Hxy. discriminate.
Qed.

Lemma js_sort_tied (l : list A) :
  filter tied (js_sort cmp l) = filter tied l.
Proof.
  induction l as [| x t IH]; [reflexivity |].
  cbn [js_sort fold_right]. fold (js_sort cmp t).
  rewrite sort_insert_tied. cbn [filter]. now rewrite IH.
Qed.
End Stable.

(** *** Sorting an ordered array leaves it as it is *)

Section Ordered.
Hypothesis cmp_asym :
  forall x y, (0 <? cmp x y)%Z = true -> (0 <? cmp y x)%Z = false.

Lemma sort_insert_HdRel (a x : A) (l : list A) :
  in_order cmp a x -> HdRel (in_order cmp) a l ->
  HdRel (in_order cmp) a (sort_insert cmp x l).
Proof.
  intros Hax Hal. destruct l as [| y t]; cbn [sort_insert].
  - now constructor.
  - destruct (0 <? cmp x y)%Z; constructor; [now inversion Hal | exact Hax].
Qed.

Lemma sort_insert_sorted (x : A) (l : list A) :
  Sorted (in_order cmp) l -> Sorted (in_order cmp) (sort_insert cmp x l).
Proof.
  induction 1 as [| y t Ht IH Hy]; cbn [sort_insert].
  - repeat constructor.
  - destruct (0 <? cmp x y)%Z eqn:Hxy.
    + constructor; [exact IH |].
      apply sort_insert_HdRel; [| exact Hy].
      now apply cmp_asym.
    + constructor; [now constructor | now constructor].
Qed.

Lemma js_sort_sorted (l : list A) : Sorted (in_order cmp) (js_sort cmp l).
Proof.
  induction l as [| x t IH]; [constructor |].
  now apply sort_insert_sorted.
Qed.

Lemma sort_insert_front (x : A) (l : list A) :
  HdRel (in_order cmp) x l -> sort_insert cmp x l = x :: l.
Proof.
  destruct 1 as [| y t Hxy]; [reflexivity |].
  cbn [sort_insert]. unfold in_order in Hxy. now rewrite Hxy.
Qed.

Lemma js_sort_fixed (l : list A) :
  Sorted (in_order cmp) l -> js_sort cmp l = l.
Proof.
  induction 1 as [| x t Ht IH Hx]; [reflexivity |].
  cbn [js_sort fold_right]. fold (js_sort cmp t).
  rewrite IH. now apply sort_insert_front.
Qed.

Lemma js_sort_idem (l : list A) :
  js_sort cmp (js_sort cmp l) = js_sort cmp l.
Proof. apply js_sort_fixed, js_sort_sorted. Qed.
End Ordered.

(** *** The contract determines the result

    ECMAScript asks of an implementation that the result be a permutation of
    the input, ordered for the comparator, with ties left in their order.  On
    a comparator whose order is transitive there is one such list, so every
    implementation agrees with [js_sort]. *)

Section Determined.
Variable tied : A -> A -> bool.
Hypothesis cmp_asym :
  forall x y, (0 <? cmp x y)%Z = true -> (0 <? cmp y x)%Z = false.
Hypothesis in_order_trans :
  forall x y z, in_order cmp x y -> in_order cmp y z -> in_order cmp x z.
Hypothesis tied_refl : forall x, tied x x = true.
Hypothesis tied_both :
  forall x y, in_order cmp x y -> in_order cmp y x -> tied x y = true.

Lemma in_order_refl (x : A) : in_order cmp x x.
Proof.
  unfold in_order. destruct (0 <? cmp x x)%Z eqn:H; [| reflexivity].
  now rewrite (cmp_asym x x H) in H.
Qed.

Lemma Sorted_head_least (x : A) (l : list A) (y : A) :
  Sorted (in_order cmp) (x :: l) -> In y (x :: l) -> in_order cmp x y.
Proof.
  intros Hs Hy.
  apply Sorted_StronglySorted in Hs; [| exact in_order_trans].
  inversion Hs as [| ? ? _ Hall]; subst.
  destruct Hy as [<- | Hy]; [apply in_order_refl |].
  rewrite Forall_forall in Hall. now apply Hall.
Qed.

Lemma sorted_stable_unique (l1 l2 : list A) :
  Sorted (in_order cmp) l1 -> Sorted (in_order cmp) l2 -> Permutation l1 l2 ->
  (forall k, filter (tied k) l1 = filter (tied k) l2) ->
  l1 = l2.
Proof.
  revert l2. induction l1 as [| x t1 IH]; intros l2 Hs1 Hs2 Hp Hf.
  - apply Permutation_nil in Hp. now subst.
  - destruct l2 as [| y t2].
    + apply Permutation_sym, Permutation_nil in Hp. discriminate.
    + assert (Hxy : in_order cmp x y).
      { apply Sorted_head_least with (l := t1); [exact Hs1 |].
        apply Permutation_in with (1 := Permutation_sym Hp). now left. }
      assert (Hyx : in_order cmp y x).
      { apply Sorted_head_least with (l := t2); [exact Hs2 |].
        apply Permutation_in with (1 := Hp). now left. }
      assert (Heq : x = y).
      { pose proof (Hf x) as Hx. cbn [filter] in Hx.
        rewrite tied_refl, (tied_both x y Hxy Hyx) in Hx. congruence. }
      subst y. f_equal. apply IH.
      * now inversion Hs1.
      * now inversion Hs2.
      * now apply Permutation_cons_inv in Hp.
      * intros k. specialize (Hf k). cbn [filter] in Hf.
        destruct (tied k x); congruence.
Qed.

Lemma js_sort_determined (l s : list A) :
  Permutation s l -> Sorted (in_order cmp) s ->
  (forall k, filter (tied k) s = filter (tied k) l) ->
  (forall k x y, tied k x = true -> tied k y = true -> in_order cmp x y) ->
  s = js_sort cmp l.
Proof.
  intros Hp Hs Hf Hclass. apply sorted_stable_unique.
  - exact Hs.
  - now apply js_sort_sorted.
  - apply Permutation_trans with (1 := Hp), Permutation_sym, js_sort_perm.
  - intros k. rewrite Hf. symmetry. apply js_sort_tied. apply Hclass.
Qed.
End Determined.

End JsSortFacts.


(** ** Comparisons of keys *)

Lemma num_lt_iff (a b : number) : num_lt a b = true <-> a < b.
Proof.
  unfold num_lt. rewrite Qlt_alt.
  destruct (a ?= b); split; congruence.
Qed.

Lemma num_gt_iff (a b : number) : num_gt a b = true <-> b < a.
Proof. apply num_lt_iff. Qed.

Lemma num_eq_iff (a b : number) : num_eq a b = true <-> a == b.
Proof.
  unfold num_eq. rewrite Qeq_alt.
  destruct (a ?= b); split; congruence.
Qed.

Lemma num_lt_false_iff (a b : number) : num_lt a b = false <-> b <= a.
Proof.
  rewrite <- Bool.not_true_iff_false, num_lt_iff. split.
  - apply Qnot_lt_le.
  - intros H1 H2. exact (Qlt_not_le _ _ H2 H1).
Qed.

Lemma string_ltb_irrefl (s : string) : (s <? s)%string = false.
Proof.
  unfold String.ltb. pose proof (String.compare_antisym s s) as H.
  destruct (String.compare s s); simpl in H; congruence.
Qed.

Lemma string_ltb_asym (s t : string) :
  (s <? t)%string = true -> (t <? s)%string = false.
Proof.
  unfold String.ltb. rewrite (String.compare_antisym s t).
  destruct (String.compare t s); simpl; congruence.
Qed.

Lemma string_ltb_neither (s t : string) :
  (s <? t)%string = false -> (t <? s)%string = false -> s = t.
Proof.
  unfold String.ltb. rewrite (String.compare_antisym s t).
  destruct (String.compare t s) eqn:E; simpl; try congruence.
  intros _ _. symmetry. now apply String.compare_eq_iff.
Qed.

(** The comparator answers 0 exactly on equal keys. *)
Lemma compareAssets_zero_iff (field : SortField) (direction : SortDirection)
    (a b : Asset) :
  compareAssets field direction a b = 0%Z <-> sameKey field a b = true.
Proof.
  unfold compareAssets, sameKey, num_gt.
  destruct field, direction;
    repeat match goal with
    | |- context [if ?c then _ else _] => destruct c eqn:?
    end;
    split; intro H; try discriminate; try reflexivity;
    repeat match goal with
    | H : (_ =? _)%string = true |- _ => apply String.eqb_eq in H
    | H : num_eq _ _ = true |- _ => apply num_eq_iff in H
    | H : num_lt _ _ = true |- _ => apply num_lt_iff in H
    | H : num_lt _ _ = false |- _ => apply num_lt_false_iff in H
    end;
    try (rewrite String.eqb_eq; now apply string_ltb_neither);
    try (rewrite num_eq_iff; now apply Qle_antisym);
    try (exfalso; lra);
    try (exfalso;
         match goal with
         | H : ?s = ?t, H' : (?s <? ?t)%string = true |- _ =>
             rewrite H, string_ltb_irrefl in H'; discriminate
         | H : ?s = ?t, H' : (?t <? ?s)%string = true |- _ =>
             rewrite H, string_ltb_irrefl in H'; discriminate
         end).
Qed.

(** The descending comparator is the ascending one with its arguments
    exchanged. *)
Lemma compareAssets_mirror (field : SortField) (a b : Asset) :
  compareAssets field desc a b = compareAssets field asc b a.
Proof. destruct field; reflexivity. Qed.

(** A request to swap is never made both ways. *)
Lemma compareAssets_asym (field : SortField) (direction : SortDirection)
    (a b : Asset) :
  (0 <? compareAssets field direction a b)%Z = true ->
  (0 <? compareAssets field direction b a)%Z = false.
Proof.
  unfold compareAssets, num_gt.
  destruct field, direction; cbv zeta;
    repeat match goal with
    | |- context [if ?c then _ else _] => destruct c eqn:?
    end;
    unfold Z.ltb; simpl; congruence.
Qed.

(** Assets with the key of [k] are never asked to swap. *)
Lemma sameKey_in_order (field : SortField) (direction : SortDirection)
    (k x y : Asset) :
  sameKey field k x = true -> sameKey field k y = true ->
  in_order (compareAssets field direction) x y.
Proof.
  intros Hx Hy.
  assert (Hxy : sameKey field x y = true).
  { destruct field; simpl in *.
    - apply String.eqb_eq in Hx, Hy. apply String.eqb_eq. congruence.
    - apply num_eq_iff in Hx, Hy. apply num_eq_iff.
      now rewrite <- Hx, <- Hy. }
  apply compareAssets_zero_iff with (direction := direction) in Hxy.
  unfold in_order. now rewrite Hxy.
Qed.

Lemma string_ltb_trans (s t u : string) :
  (s <? t)%string = true -> (t <? u)%string = true -> (s <? u)%string = true.
Proof.
  unfold String.ltb. change String.compare with String_as_OT.compare.
  pose proof (@StrictOrder_Transitive _ _ String_as_OT.lt_strorder s t u)
    as Htr.
  unfold String_as_OT.lt in Htr.
  destruct (String_as_OT.compare s t); try discriminate.
  destruct (String_as_OT.compare t u); try discriminate.
  intros _ _. now rewrite Htr.
Qed.

(** [s <= t <= u] on strings, written with [<] as the comparator has it. *)
Lemma string_le_trans (s t u : string) :
  (t <? s)%string = false -> (u <? t)%string = false ->
  (u <? s)%string = false.
Proof.
  intros Hst Htu. destruct (u <? s)%string eqn:Hus; [| reflexivity].
  destruct (t <? u)%string eqn:Htu'.
  - now rewrite (string_ltb_trans t u s Htu' Hus) in Hst.
  - rewrite (string_ltb_neither t u Htu' Htu) in Hst. congruence.
Qed.

(** The order the comparator asks for, in terms of the keys. *)
Lemma compareAssets_in_order_iff (field : SortField)
    (direction : SortDirection) (a b : Asset) :
  in_order (compareAssets field direction) a b <->
  match field, direction with
  | by_name, asc =>
      (toLowerCase (name b) <? toLowerCase (name a))%string = false
  | by_name, desc =>
      (toLowerCase (name a) <? toLowerCase (name b))%string = false
  | by_dailyChangePercent, asc => dailyChangePercent a <= dailyChangePercent b
  | by_dailyChangePercent, desc => dailyChangePercent b <= dailyChangePercent a
  end.
Proof.
  unfold in_order, compareAssets, num_gt.
  destruct field, direction; cbv zeta;
    repeat match goal with
    | |- context [if ?c then _ else _] => destruct c eqn:?
    end;
    unfold Z.ltb; simpl;
    repeat match goal with
    | H : num_lt _ _ = true |- _ => apply num_lt_iff in H
    | H : num_lt _ _ = false |- _ => apply num_lt_false_iff in H
    | H : (?s <? ?t)%string = true |- context [(?t <? ?s)%string] =>
        rewrite (string_ltb_asym s t H)
    end;
    split; intros; try reflexivity; try congruence; try lra.
Qed.

Lemma compareAssets_in_order_trans (field : SortField)
    (direction : SortDirection) (a b c : Asset) :
  in_order (compareAssets field direction) a b ->
  in_order (compareAssets field direction) b c ->
  in_order (compareAssets field direction) a c.
Proof.
  rewrite !compareAssets_in_order_iff. destruct field, direction.
  - intros H1 H2. now apply string_le_trans with (t := toLowerCase (name b)).
  - intros H1 H2. now apply string_le_trans with (t := toLowerCase (name b)).
  - intros; lra.
  - intros; lra.
Qed.

Lemma sameKey_refl (field : SortField) (a : Asset) : sameKey field a a = true.
Proof.
  destruct field; simpl.
  - apply String.eqb_refl.
  - now apply num_eq_iff.
Qed.

Lemma sameKey_both (field : SortField) (direction : SortDirection)
    (a b : Asset) :
  in_order (compareAssets field direction) a b ->
  in_order (compareAssets field direction) b a ->
  sameKey field a b = true.
Proof.
  rewrite !compareAssets_in_order_iff. destruct field, direction; simpl.
  - intros H1 H2. apply String.eqb_eq. now apply string_ltb_neither.
  - intros H1 H2. apply String.eqb_eq. now apply string_ltb_neither.
  - intros H1 H2. apply num_eq_iff. now apply Qle_antisym.
  - intros H1 H2. apply num_eq_iff. now apply Qle_antisym.
Qed.


(** ** Subsequences and substrings *)

Lemma Subseq_refl {A : Type} (l : list A) : Subseq l l.
Proof. induction l; [apply Subseq_nil | now apply Subseq_keep]. Qed.

Lemma Subseq_filter {A : Type} (f : A -> bool) (l : list A) :
  Subseq (filter f l) l.
Proof.
  induction l as [| x t IH]; simpl.
  - constructor.
  - destruct (f x); [apply Subseq_keep | apply Subseq_drop]; exact IH.
Qed.

Lemma Subseq_firstn {A : Type} (n : nat) (l : list A) : Subseq (firstn n l) l.
Proof.
  revert n. induction l as [| x t IH]; intros [| n]; simpl.
  - constructor.
  - constructor.
  - apply Subseq_drop, (IH 0%nat).
  - apply Subseq_keep, IH.
Qed.

Lemma Subseq_trans {A : Type} (l1 l2 l3 : list A) :
  Subseq l1 l2 -> Subseq l2 l3 -> Subseq l1 l3.
Proof.
  intros H12 H23. revert l1 H12.
  induction H23 as [| x l2 l3 H23 IH | x l2 l3 H23 IH]; intros l1 H12.
  - exact H12.
  - apply Subseq_drop. now apply IH.
  - inversion H12; subst.
    + apply Subseq_drop. now apply IH.
    + apply Subseq_keep. now apply IH.
Qed.

Lemma Subseq_In {A : Type} (l1 l2 : list A) (x : A) :
  Subseq l1 l2 -> In x l1 -> In x l2.
Proof.
  induction 1; simpl; intuition.
Qed.

Lemma prefix_iff (q s : string) :
  prefix q s = true <-> exists post : string, s = (q ++ post)%string.
Proof.
  revert s. induction q as [| c q IH]; intros s; simpl.
  - split; [intros _; now exists s | now destruct s].
  - destruct s as [| d s].
    + split; [discriminate | intros [post H]; discriminate].
    + cbn [prefix append]. destruct (ascii_dec c d) as [-> | Hcd].
      * rewrite IH. split; intros [post H]; exists post; congruence.
      * split; [discriminate | intros [post H]; congruence].
Qed.

Lemma includes_iff (s q : string) : includes s q = true <-> Contains s q.
Proof.
  unfold Contains. induction s as [| c s IH]; cbn [includes].
  - rewrite Bool.orb_false_r, prefix_iff. split.
    + intros [post H]. now exists EmptyString, post.
    + intros [[| d pre] [post H]]; [now exists post | discriminate].
  - rewrite Bool.orb_true_iff, prefix_iff, IH. split.
    + intros [[post H] | [pre [post H]]].
      * now exists EmptyString, post.
      * exists (String c pre), post. simpl. now rewrite H.
    + intros [[| d pre] [post H]].
      * left. now exists post.
      * right. exists pre, post. simpl in H. congruence.
Qed.

(** An element that survives a filter sits in the list between what gave
    the part before it and what gave the part after it. *)
Lemma filter_split {A : Type} (f : A -> bool) (l p q : list A) (a : A) :
  filter f l = p ++ a :: q ->
  exists m n, l = m ++ a :: n /\ filter f m = p /\ filter f n = q.
Proof.
  revert p. induction l as [| x t IH]; intros p H; cbn [filter] in H.
  - now destruct p.
  - destruct (f x) eqn:Hx.
    + destruct p as [| y p']; cbn [app] in H; injection H as Hxy Ht.
      * subst x. now exists [], t.
      * subst y. destruct (IH p' Ht) as (m & n & -> & Hm & Hn).
        exists (x :: m), n. cbn [filter app]. rewrite Hx, Hm. auto.
    + destruct (IH p H) as (m & n & -> & Hm & Hn).
      exists (x :: m), n. cbn [filter app]. rewrite Hx. auto.
Qed.

(** ** Properties of the sort stage *)

(** C10.  The output of [sortAssets] is a permutation of its input: the same
    assets with the same multiplicities.  Hence it has the length of the
    input, ids that were unique stay unique, and whatever holds of every
    input asset holds of every output asset. *)
Theorem sortAssets_permutation (assets : list Asset) (field : SortField)
    (direction : SortDirection) :
  Permutation (sortAssets assets field direction) assets
  /\ List.length (sortAssets assets field direction) = List.length assets
  /\ (NoDup (map id assets) ->
      NoDup (map id (sortAssets assets field direction)))
  /\ (forall P : Asset -> Prop,
        Forall P assets -> Forall P (sortAssets assets field direction)).
Proof.
  assert (Hp : Permutation (sortAssets assets field direction) assets)
    by apply js_sort_perm.
  split; [exact Hp |]. split; [now apply Permutation_length |]. split.
  - intros Hnd. apply Permutation_NoDup with (l := map id assets).
    + apply Permutation_map, Permutation_sym, Hp.
    + exact Hnd.
  - intros P HP. rewrite Forall_forall in *. intros x Hx.
    apply HP. now apply Permutation_in with (1 := Hp).
Qed.

(** C4.  [sortAssets] is stable under both directions: for every asset [k],
    the assets whose key (case-folded name, or numeric dailyChangePercent)
    equals the key of [k] come out in the order they came in; so of two
    assets with equal keys, the one that came first comes out first.  Equal
    keys are exactly the pairs on which the comparator answers 0; the
    descending comparator is the ascending one with its arguments exchanged,
    so a group of ties has the same order, that of the input, in the
    descending and in the ascending output. *)
Theorem sortAssets_stable (assets : list Asset) (field : SortField)
    (direction : SortDirection) (k : Asset) :
  filter (sameKey field k) (sortAssets assets field direction)
    = filter (sameKey field k) assets
  /\ (forall (a b : Asset) (l1 l2 l3 : list Asset),
        assets = l1 ++ a :: l2 ++ b :: l3 -> sameKey field a b = true ->
        exists m1 m2 m3,
          sortAssets assets field direction = m1 ++ a :: m2 ++ b :: m3)
  /\ (forall a b : Asset,
        compareAssets field direction a b = 0%Z <-> sameKey field a b = true)
  /\ (forall a b : Asset,
        compareAssets field desc a b = compareAssets field asc b a)
  /\ filter (sameKey field k) (sortAssets assets field desc)
       = filter (sameKey field k) (sortAssets assets field asc).
Proof.
  assert (Hst : forall k d,
             filter (sameKey field k) (sortAssets assets field d)
             = filter (sameKey field k) assets).
  { intros k' d. apply js_sort_tied. intros x y. apply sameKey_in_order. }
  split; [apply Hst |].
  split.
  { intros a b l1 l2 l3 Hassets Hab.
    pose proof (Hst a direction) as Ha. rewrite Hassets in Ha at 2.
    rewrite filter_app in Ha. cbn [filter] in Ha.
    rewrite filter_app in Ha. cbn [filter] in Ha.
    rewrite sameKey_refl, Hab in Ha.
    destruct (filter_split _ _ _ _ _ Ha) as (m1 & n & Hout & _ & Hn).
    destruct (filter_split _ _ _ _ _ Hn) as (m2 & m3 & -> & _ & _).
    now exists m1, m2, m3. }
  split; [intros a b; apply compareAssets_zero_iff |].
  split; [intros a b; apply compareAssets_mirror |].
  now rewrite !Hst.
Qed.

(** C9.  [sortAssets] is idempotent. *)
Theorem sortAssets_idempotent (assets : list Asset) (field : SortField)
    (direction : SortDirection) :
  sortAssets (sortAssets assets field direction) field direction
  = sortAssets assets field direction.
Proof.
  unfold sortAssets. apply js_sort_idem. apply compareAssets_asym.
Qed.

(** X2.  Whatever stable sort the host implements, [sortAssets] returns the
    list computed here: the one permutation of the input that is ordered for
    the comparator and leaves the assets of equal key in their order. *)
Lemma sortAssets_determined (assets : list Asset) (field : SortField)
    (direction : SortDirection) (s : list Asset) :
  Permutation s assets ->
  Sorted (in_order (compareAssets field direction)) s ->
  (forall k, filter (sameKey field k) s = filter (sameKey field k) assets) ->
  s = sortAssets assets field direction.
Proof.
  intros Hp Hs Hf. unfold sortAssets.
  apply js_sort_determined with (tied := sameKey field).
  - apply compareAssets_asym.
  - apply compareAssets_in_order_trans.
  - apply sameKey_refl.
  - apply sameKey_both.
  - exact Hp.
  - exact Hs.
  - exact Hf.
  - intros k x y. apply sameKey_in_order.
Qed.

(** The output is ordered by key: no asset is followed by one that the
    comparator wants before it. *)
Lemma sortAssets_sorted (assets : list Asset) (field : SortField)
    (direction : SortDirection) :
  StronglySorted (in_order (compareAssets field direction))
                 (sortAssets assets field direction).
Proof.
  apply Sorted_StronglySorted.
  - intros a b c. apply compareAssets_in_order_trans.
  - apply js_sort_sorted. apply compareAssets_asym.
Qed.


(** ** Properties of the filter stage *)

(** Three tests of which every element passes exactly one split a list in
    three. *)
Lemma filter3_perm {A : Type} (f g h : A -> bool) (l : list A) :
  (forall x, (f x = true /\ g x = false /\ h x = false)
             \/ (f x = false /\ g x = true /\ h x = false)
             \/ (f x = false /\ g x = false /\ h x = true)) ->
  Permutation (filter f l ++ filter g l ++ filter h l) l.
Proof.
  intros Hone. induction l as [| x t IH]; [apply perm_nil |].
  cbn [filter].
  destruct (Hone x) as [(-> & -> & ->) | [(-> & -> & ->) | (-> & -> & ->)]].
  - cbn [app]. now apply perm_skip.
  - apply Permutation_sym, Permutation_cons_app, Permutation_sym.
    exact IH.
  - rewrite app_assoc.
    apply Permutation_sym, Permutation_cons_app, Permutation_sym.
    rewrite <- app_assoc. exact IH.
Qed.

Lemma sign_cases (x : number) :
  (num_gt x 0 = true /\ num_lt x 0 = false /\ num_eq x 0 = false)
  \/ (num_gt x 0 = false /\ num_lt x 0 = true /\ num_eq x 0 = false)
  \/ (num_gt x 0 = false /\ num_lt x 0 = false /\ num_eq x 0 = true).
Proof.
  unfold num_gt, num_lt, num_eq.
  rewrite <- (Qcompare_antisym x 0).
  destruct (x ?= 0); simpl; tauto.
Qed.

(** C3.  The top-gainers filter keeps exactly the assets whose
    dailyChangePercent is above 0, the top-losers filter exactly those below
    0, both in the order of the input; with the assets at exactly 0 the two
    results make up the input, every asset counted once, and no asset is in
    two of the three parts. *)
Theorem filterAssets_partition (assets : list Asset) :
  let gainers := filterAssets assets "topGainers" in
  let losers := filterAssets assets "topLosers" in
  let flat := filter (fun a => num_eq (dailyChangePercent a) 0) assets in
  (forall a, In a gainers <-> In a assets /\ 0 < dailyChangePercent a)
  /\ (forall a, In a losers <-> In a assets /\ dailyChangePercent a < 0)
  /\ (forall a, In a flat <-> In a assets /\ dailyChangePercent a == 0)
  /\ Subseq gainers assets
  /\ Subseq losers assets
  /\ Permutation (gainers ++ losers ++ flat) assets
  /\ (forall a, ~ (In a gainers /\ In a losers)
                /\ ~ (In a gainers /\ In a flat)
                /\ ~ (In a losers /\ In a flat)).
Proof.
  cbv zeta. unfold filterAssets. cbn [String.eqb Ascii.eqb Bool.eqb].
  assert (Hg : forall a,
             In a (filter (fun a => num_gt (dailyChangePercent a) 0) assets)
             <-> In a assets /\ 0 < dailyChangePercent a).
  { intros a. now rewrite filter_In, num_gt_iff. }
  assert (Hl : forall a,
             In a (filter (fun a => num_lt (dailyChangePercent a) 0) assets)
             <-> In a assets /\ dailyChangePercent a < 0).
  { intros a. now rewrite filter_In, num_lt_iff. }
  assert (Hz : forall a,
             In a (filter (fun a => num_eq (dailyChangePercent a) 0) assets)
             <-> In a assets /\ dailyChangePercent a == 0).
  { intros a. now rewrite filter_In, num_eq_iff. }
  split; [exact Hg |]. split; [exact Hl |]. split; [exact Hz |].
  split; [apply Subseq_filter |]. split; [apply Subseq_filter |].
  split.
  - apply filter3_perm. intros a. apply sign_cases.
  - intros a. rewrite Hg, Hl, Hz. repeat split; intros [[_ H1] [_ H2]]; lra.
Qed.

(** C5.  On every mode other than the four that select ('topGainers',
    'topLosers', 'stocks', 'crypto'), and so on 'all', [filterAssets] gives
    back its input.  The function has no failing path: it is total. *)
Theorem filterAssets_fail_open (assets : list Asset) (mode : FilterType) :
  mode <> "topGainers" -> mode <> "topLosers" ->
  mode <> "stocks" -> mode <> "crypto" ->
  filterAssets assets mode = assets /\ filterAssets assets "all" = assets.
Proof.
  intros H1 H2 H3 H4. split; [| reflexivity].
  unfold filterAssets.
  apply String.eqb_neq in H1, H2, H3, H4.
  now rewrite H1, H2, H3, H4.
Qed.

Lemma filterAssets_fail_open_witness :
  ("unknown" <> "topGainers" /\ "unknown" <> "topLosers"
   /\ "unknown" <> "stocks" /\ "unknown" <> "crypto")
  /\ filterAssets Fixtures.mockAssets "unknown" = Fixtures.mockAssets
  /\ filterAssets Fixtures.mockAssets "all" = Fixtures.mockAssets.
Proof.
  assert (H1 : "unknown" <> "topGainers") by discriminate.
  assert (H2 : "unknown" <> "topLosers") by discriminate.
  assert (H3 : "unknown" <> "stocks") by discriminate.
  assert (H4 : "unknown" <> "crypto") by discriminate.
  split; [repeat split; assumption |].
  exact (filterAssets_fail_open Fixtures.mockAssets "unknown" H1 H2 H3 H4).
Defined.


(** ** Properties of the similarity recommender *)

Lemma slice0_nonneg {A : Type} (l : list A) (n : Z) :
  (0 <= n)%Z -> slice0 l n = firstn (Z.to_nat n) l.
Proof.
  intros Hn. unfold slice0.
  destruct (Z.ltb_spec n 0) as [Hneg | _]; [lia |].
  destruct (Z.le_ge_cases n (Z.of_nat (List.length l))) as [Hle | Hge].
  - now rewrite Z.min_l.
  - rewrite Z.min_r, Nat2Z.id by exact Hge.
    rewrite firstn_all. symmetry. apply firstn_all2. lia.
Qed.

Lemma AssetType_eqb_eq (a b : AssetType) : AssetType_eqb a b = true <-> a = b.
Proof. destruct a, b; simpl; split; congruence. Qed.

Lemma getSimilarAssets_default (assets : list Asset) (focal : Asset) :
  getSimilarAssets assets focal None
  = getSimilarAssets assets focal (Some 3%Z).
Proof. reflexivity. Qed.

(** C6.  For a limit [n >= 0], every asset returned by [getSimilarAssets]
    has the type of the focal asset and another id, at most [n] assets are
    returned, and they are assets of the collection in the order of the
    collection. *)
Theorem getSimilarAssets_peers (assets : list Asset) (focal : Asset) (n : Z) :
  (0 <= n)%Z ->
  let result := getSimilarAssets assets focal (Some n) in
  Forall (fun a => type a = type focal /\ id a <> id focal) result
  /\ (Z.of_nat (List.length result) <= n)%Z
  /\ Subseq result assets.
Proof.
  intros Hn result. subst result. unfold getSimilarAssets. cbv zeta.
  rewrite slice0_nonneg by exact Hn.
  set (peer := fun asset : Asset =>
                 negb (id asset =? id focal)%Z
                 && AssetType_eqb (type asset) (type focal)).
  split; [| split].
  - apply Forall_forall. intros a Ha.
    assert (Hin : In a (filter peer assets)).
    { eapply Subseq_In; [apply Subseq_firstn | exact Ha]. }
    apply filter_In in Hin. destruct Hin as [_ Hp]. unfold peer in Hp.
    apply Bool.andb_true_iff in Hp. destruct Hp as [Hid Hty].
    split.
    + now apply AssetType_eqb_eq.
    + apply Bool.negb_true_iff, Z.eqb_neq in Hid. exact Hid.
  - pose proof (firstn_le_length (Z.to_nat n) (filter peer assets)). lia.
  - apply Subseq_trans with (l2 := filter peer assets).
    + apply Subseq_firstn.
    + apply Subseq_filter.
Qed.

Lemma getSimilarAssets_peers_witness :
  (0 <= 2)%Z
  /\ Forall (fun a => type a = type Fixtures.tesla
                      /\ id a <> id Fixtures.tesla)
            (getSimilarAssets Fixtures.mockAssets5 Fixtures.tesla (Some 2%Z))
  /\ (Z.of_nat
        (List.length
           (getSimilarAssets Fixtures.mockAssets5 Fixtures.tesla (Some 2%Z)))
      <= 2)%Z
  /\ Subseq (getSimilarAssets Fixtures.mockAssets5 Fixtures.tesla (Some 2%Z))
            Fixtures.mockAssets5.
Proof.
  assert (H : (0 <= 2)%Z) by (intro c; discriminate c).
  split; [exact H |].
  exact (getSimilarAssets_peers Fixtures.mockAssets5 Fixtures.tesla 2 H).
Defined.

(** ** Properties of the search stage and of the pipeline *)

Lemma truthy_false_iff (s : string) : truthy s = false <-> s = "".
Proof. destruct s; simpl; split; congruence. Qed.

Lemma matchesQuery_iff (searchQuery : string) (asset : Asset) :
  matchesQuery searchQuery asset = true
  <-> Contains (toLowerCase (name asset)) (toLowerCase searchQuery)
      \/ Contains (toLowerCase (symbol asset)) (toLowerCase searchQuery).
Proof.
  unfold matchesQuery. now rewrite Bool.orb_true_iff, !includes_iff.
Qed.

(** C7, the claim as stated fails: the query made of one space is blank, yet
    the search stage drops Bitcoin/BTC, whose name and symbol hold no
    space. *)
Lemma searchAssets_blank_not_identity :
  blank " " = true
  /\ searchAssets [Fixtures.bitcoin] " " <> [Fixtures.bitcoin].
Proof. split; [reflexivity | discriminate]. Qed.

(** C7, amended.  The search stage is the identity when the query is the
    empty string.  On every other query, white space included, it keeps
    exactly the assets whose case-folded name or case-folded symbol contains
    the case-folded query as a substring, in the order of the input. *)
Theorem searchAssets_substring (assets : list Asset) (searchQuery : string) :
  (searchQuery = "" -> searchAssets assets searchQuery = assets)
  /\ (searchQuery <> "" ->
      searchAssets assets searchQuery
        = filter (matchesQuery searchQuery) assets
      /\ (forall a,
            In a (searchAssets assets searchQuery)
            <-> In a assets
                /\ (Contains (toLowerCase (name a)) (toLowerCase searchQuery)
                    \/ Contains (toLowerCase (symbol a))
                                (toLowerCase searchQuery)))
      /\ Subseq (searchAssets assets searchQuery) assets).
Proof.
  unfold searchAssets. split.
  - intros ->. reflexivity.
  - intros Hne. destruct searchQuery as [| c q]; [congruence |].
    cbn [truthy]. split; [reflexivity | split].
    + intros a. now rewrite filter_In, matchesQuery_iff.
    + apply Subseq_filter.
Qed.

(** The memo read as three stages, the search stage being the conditional
    filter of the code. *)
Theorem processedAssets_pipeline (assets : list Asset) (filterType : FilterType)
    (searchQuery : string) (sortField : SortField)
    (sortDirection : SortDirection) :
  processedAssets assets searchQuery sortField sortDirection filterType
  = sortAssets (searchAssets (filterAssets assets filterType) searchQuery)
               sortField sortDirection.
Proof.
  unfold processedAssets, searchAssets.
  destruct (truthy searchQuery); reflexivity.
Qed.

(** C2, the claim as stated fails: on the query of one space, which is
    blank, the search stage of the specification is the identity and the
    composition renders Bitcoin, while the home screen renders nothing. *)
Lemma processedAssets_blank_not_spec :
  blank " " = true
  /\ processedAssets [Fixtures.bitcoin] " " by_name asc "all" = []
  /\ spec_render [Fixtures.bitcoin] "all" " " by_name asc = [Fixtures.bitcoin]
  /\ processedAssets [Fixtures.bitcoin] " " by_name asc "all"
     <> spec_render [Fixtures.bitcoin] "all" " " by_name asc.
Proof. repeat split; try reflexivity. discriminate. Qed.

(** C2, amended.  On every query that is empty or not blank, the sequence
    rendered by the home screen is the composition of the specification,
    sort after search after filter.  On every non-empty query, the blank
    ones included, the stages run in that same order with the substring
    search in the middle: the rendered sequence is the sort of the assets,
    among those the filter keeps, whose case-folded name or symbol contains
    the case-folded query. *)
Theorem processedAssets_refines_spec (assets : list Asset)
    (filterType : FilterType) (searchQuery : string) (sortField : SortField)
    (sortDirection : SortDirection) :
  (searchQuery = "" \/ blank searchQuery = false ->
   processedAssets assets searchQuery sortField sortDirection filterType
   = spec_render assets filterType searchQuery sortField sortDirection)
  /\ (searchQuery <> "" ->
      processedAssets assets searchQuery sortField sortDirection filterType
      = sortAssets
          (filter (fun asset =>
                     includes (toLowerCase (name asset))
                              (toLowerCase searchQuery)
                     || includes (toLowerCase (symbol asset))
                                 (toLowerCase searchQuery))
                  (filterAssets assets filterType))
          sortField sortDirection).
Proof.
  unfold processedAssets, spec_render, spec_search. split.
  - intros [-> | Hnb].
    + reflexivity.
    + rewrite Hnb. destruct searchQuery as [| c q].
      * discriminate Hnb.
      * reflexivity.
  - intros Hne. destruct searchQuery as [| c q]; [congruence |].
    reflexivity.
Qed.


(** ** Properties of the price simulation *)

Lemma updateAssetPrices_length (random : nat -> number) (k : nat)
    (assets : list Asset) :
  List.length (updateAssetPrices random k assets) = List.length assets.
Proof.
  revert k. induction assets as [| a t IH]; intros k; simpl; [| rewrite IH];
    reflexivity.
Qed.

Lemma updateAssetPrices_identity (random : nat -> number) (k : nat)
    (assets : list Asset) :
  Forall2 sameIdentity assets (updateAssetPrices random k assets).
Proof.
  revert k. induction assets as [| a t IH]; intros k; simpl; constructor.
  - unfold sameIdentity. simpl. auto.
  - apply IH.
Qed.

Lemma updateAssetPrices_nth (random : nat -> number) (k i : nat)
    (assets : list Asset) (a : Asset) :
  nth_error assets i = Some a ->
  nth_error (updateAssetPrices random k assets) i
  = Some (updateAsset (random (k + i)%nat) a).
Proof.
  revert k i. induction assets as [| x t IH]; intros k [| i] H;
    simpl in *; try discriminate.
  - injection H as ->. now rewrite Nat.add_0_r.
  - rewrite (IH (S k) i H). now rewrite Nat.add_succ_r.
Qed.

Section StoreFacts.
Import Store.
Variable random : nat -> number.

(** The callback [map] runs on each element reference. *)
Let callback (r : ref) : M ref :=
  bind (Math_random random) (fun x =>
  bind (readObject r) (fun asset =>
  newObject (updateAsset x asset))).

Lemma deref_length (objs : list Asset) (l : list ref) (v : list Asset) :
  deref objs l = Some v -> List.length v = List.length l.
Proof.
  revert v. induction l as [| r t IH]; intros v; simpl.
  - now intros [= <-].
  - destruct (nth_error objs r); [| discriminate].
    destruct (deref objs t) as [os |]; [| discriminate].
    intros [= <-]. simpl. f_equal. now apply IH.
Qed.

Lemma deref_app (objs extra : list Asset) (l : list ref) (v : list Asset) :
  deref objs l = Some v -> deref (objs ++ extra) l = Some v.
Proof.
  revert v. induction l as [| r t IH]; intros v; simpl; [trivial |].
  destruct (nth_error objs r) as [o |] eqn:Hr; [| discriminate].
  destruct (deref objs t) as [os |]; [| discriminate].
  intros [= <-].
  rewrite nth_error_app1 by (apply nth_error_Some; congruence).
  now rewrite Hr, (IH os).
Qed.

Lemma deref_fresh (objs news : list Asset) :
  deref (objs ++ news) (seq (List.length objs) (List.length news))
  = Some news.
Proof.
  revert objs. induction news as [| u rest IH]; intros objs; simpl.
  - reflexivity.
  - rewrite nth_error_app2, Nat.sub_diag by lia. simpl.
    specialize (IH (objs ++ [u])%list).
    rewrite <- app_assoc, length_app, Nat.add_1_r in IH. simpl in IH.
    now rewrite IH.
Qed.

Lemma mapM_callback (elems : list ref) (input objs : list Asset)
    (arrs : list (list ref)) (k : nat) :
  deref objs elems = Some input ->
  mapM callback elems (mkState (mkStore objs arrs) k)
  = Some (seq (List.length objs) (List.length elems),
          mkState (mkStore (objs ++ updateAssetPrices random k input) arrs)
                  (k + List.length elems)).
Proof.
  revert input objs k.
  induction elems as [| r t IH]; intros input objs k; simpl.
  - intros [= <-]. simpl. now rewrite app_nil_r, Nat.add_0_r.
  - destruct (nth_error objs r) as [o |] eqn:Hr; [| discriminate].
    destruct (deref objs t) as [os |] eqn:Ht; [| discriminate].
    intros [= <-].
    unfold bind at 1. unfold callback at 1.
    unfold bind, Math_random, readObject, newObject. simpl.
    rewrite Hr. simpl.
    fold (bind (X := list ref) (Y := list ref)).
    pose proof (IH os (objs ++ [updateAsset (random k) o])%list (S k)
                   (deref_app _ _ _ _ Ht)) as Hrec.
    unfold bind. rewrite Hrec. unfold ret.
    rewrite length_app, Nat.add_1_r, <- app_assoc, Nat.add_succ_r.
    reflexivity.
Qed.

End StoreFacts.

(** C8.  Run on a reference to an array holding [input],
    [updateAssetPrices] returns a reference to an array of the same length
    whose asset at each position has the id, name, symbol and type of the
    input asset at that position (currentPrice and dailyChangePercent are the
    two fields left free).  Nothing is written to what existed before the
    call: every object and every array of the store is as it was, the input
    array among them. *)
Theorem updateAssetPrices_frame (random : nat -> number) (h : Store.store)
    (k : nat) (a : Store.ref) (input : list Asset) :
  Store.contents h a = Some input ->
  exists (a' : Store.ref) (h' : Store.store),
    Store.updateAssetPrices_st random a (Store.mkState h k)
      = Some (a', Store.mkState h' (k + List.length input))
    /\ Store.contents h' a' = Some (updateAssetPrices random k input)
    /\ List.length (updateAssetPrices random k input) = List.length input
    /\ Forall2 sameIdentity input (updateAssetPrices random k input)
    /\ Store.contents h' a = Some input
    /\ (forall r o, nth_error (Store.objects h) r = Some o ->
                    nth_error (Store.objects h') r = Some o)
    /\ (forall b l, nth_error (Store.arrays h) b = Some l ->
                    nth_error (Store.arrays h') b = Some l).
Proof.
  destruct h as [objs arrs]. unfold Store.contents. cbn [Store.arrays
    Store.objects].
  destruct (nth_error arrs a) as [elems |] eqn:Ha; [| discriminate].
  intros Hin.
  set (news := updateAssetPrices random k input).
  set (out := seq (List.length objs) (List.length elems)).
  exists (List.length arrs),
         (Store.mkStore (objs ++ news) (arrs ++ [out])).
  assert (Hlen : List.length news = List.length elems).
  { unfold news. rewrite updateAssetPrices_length.
    now apply deref_length in Hin. }
  cbn [Store.arrays Store.objects].
  split; [| split; [| split; [| split; [| split; [| split]]]]].
  - unfold Store.updateAssetPrices_st, Store.bind at 1, Store.readArray.
    cbn [Store.heap Store.arrays]. rewrite Ha.
    unfold Store.bind at 1.
    rewrite (mapM_callback random elems input objs arrs k Hin).
    unfold Store.newArray. cbn [Store.heap Store.arrays Store.objects
      Store.draws].
    fold news out. now rewrite (deref_length _ _ _ Hin).
  - rewrite nth_error_app2, Nat.sub_diag by lia. cbn [nth_error].
    unfold out. rewrite <- Hlen. apply deref_fresh.
  - apply updateAssetPrices_length.
  - apply updateAssetPrices_identity.
  - rewrite nth_error_app1 by (apply nth_error_Some; congruence).
    rewrite Ha. now apply deref_app.
  - intros r o Hr.
    rewrite nth_error_app1 by (apply nth_error_Some; congruence).
    exact Hr.
  - intros b l Hb.
    rewrite nth_error_app1 by (apply nth_error_Some; congruence).
    exact Hb.
Qed.

Lemma updateAssetPrices_frame_witness :
  let random := fun n : nat => Z.of_nat n # 4 in
  let h := Store.mkStore Fixtures.mockAssets [[0; 1; 2; 3]%nat] in
  Store.contents h 0%nat = Some Fixtures.mockAssets
  /\ exists (a' : Store.ref) (h' : Store.store),
       Store.updateAssetPrices_st random 0%nat (Store.mkState h 0%nat)
         = Some (a', Store.mkState h'
                       (0 + List.length Fixtures.mockAssets)%nat)
       /\ Store.contents h' a'
          = Some (updateAssetPrices random 0%nat Fixtures.mockAssets)
       /\ List.length (updateAssetPrices random 0%nat Fixtures.mockAssets)
          = List.length Fixtures.mockAssets
       /\ Forall2 sameIdentity Fixtures.mockAssets
                  (updateAssetPrices random 0%nat Fixtures.mockAssets)
       /\ Store.contents h' 0%nat = Some Fixtures.mockAssets
       /\ (forall r o, nth_error (Store.objects h) r = Some o ->
                       nth_error (Store.objects h') r = Some o)
       /\ (forall b l, nth_error (Store.arrays h) b = Some l ->
                       nth_error (Store.arrays h') b = Some l).
Proof.
  intros random h.
  assert (H : Store.contents h 0%nat = Some Fixtures.mockAssets)
    by reflexivity.
  split; [exact H |].
  exact (updateAssetPrices_frame random h 0%nat 0%nat Fixtures.mockAssets H).
Defined.

(** *** Rounding and the price after a tick *)

Lemma Math_round_bounds (x : number) :
  x - (1 # 2) < Math_round x /\ Math_round x <= x + (1 # 2).
Proof.
  unfold Math_round.
  pose proof (Qfloor_le (x + (1 # 2))) as Hle.
  pose proof (Qlt_floor (x + (1 # 2))) as Hlt.
  rewrite inject_Z_plus in Hlt.
  change (inject_Z 1) with 1 in Hlt.
  split; lra.
Qed.

Lemma Math_round_ge (x : number) (n : Z) :
  inject_Z n - (1 # 2) <= x -> inject_Z n <= Math_round x.
Proof.
  intros H. unfold Math_round. rewrite <- Zle_Qle.
  rewrite <- (Qfloor_Z n). apply Qfloor_resp_le. lra.
Qed.

Lemma Math_round_zero (x : number) :
  - (1 # 2) <= x -> x < 1 # 2 -> Math_round x == 0.
Proof.
  intros Hlo Hhi.
  assert (Hge : inject_Z 0 <= Math_round x).
  { apply Math_round_ge. change (inject_Z 0) with 0. lra. }
  unfold Math_round in *.
  assert (Hz : (Qfloor (x + (1 # 2)) < 1)%Z).
  { rewrite Zlt_Qlt. apply Qle_lt_trans with (x + (1 # 2)).
    - apply Qfloor_le.
    - change (inject_Z 1) with 1. lra. }
  rewrite <- Zle_Qle in Hge.
  assert (Heq : Qfloor (x + (1 # 2)) = 0%Z) by lia.
  now rewrite Heq.
Qed.

(** The percentage drawn for one asset is in [-5, 5). *)
Lemma changePercent_range (r : number) :
  0 <= r -> r < 1 -> -5 <= (r - (1 # 2)) * 10 /\ (r - (1 # 2)) * 10 < 5.
Proof. intros; split; lra. Qed.

(** Linear arithmetic after turning the divisions by 100 into products. *)
Ltac cents :=
  unfold Qdiv in *; change (/ 100) with (1 # 100) in *; lra.

(** What one tick does to a positive price: the new price is the exact
    product rounded to the cent, so within half a cent of it and of the
    band from 0.95 to 1.05 times the old price; it is never negative, and at
    least one cent when the old price is. *)
Lemma updateAsset_price (r : number) (asset : Asset) :
  0 <= r -> r < 1 -> 0 < currentPrice asset ->
  let delta := (r - (1 # 2)) * 10 in
  let exact := currentPrice asset * (1 + delta / 100) in
  let new := currentPrice (updateAsset r asset) in
  (-5 <= delta /\ delta < 5)
  /\ new == Math_round (exact * 100) / 100
  /\ (exact - (1 # 200) < new /\ new <= exact + (1 # 200))
  /\ ((95 # 100) * currentPrice asset - (1 # 200) < new
      /\ new < (105 # 100) * currentPrice asset + (1 # 200))
  /\ 0 <= new
  /\ (1 # 100 <= currentPrice asset -> 1 # 100 <= new).
Proof.
  intros Hr0 Hr1 Hp delta exact new.
  assert (Hd : -5 <= delta /\ delta < 5) by (apply changePercent_range; auto).
  assert (Hnew : new == Math_round (exact * 100) / 100) by reflexivity.
  pose proof (Math_round_bounds (exact * 100)) as [Hlo Hhi].
  set (p := currentPrice asset) in *.
  assert (Hband : (95 # 100) * p <= exact /\ exact < (105 # 100) * p).
  { destruct Hd as [Hd1 Hd2].
    assert (H1 : 0 <= p * (delta / 100 + (5 # 100)))
      by (apply Qmult_le_0_compat; cents).
    assert (H2 : 0 < p * ((5 # 100) - delta / 100))
      by (apply Qmult_lt_0_compat; cents).
    unfold exact. split; cents. }
  clearbody exact new delta.
  split; [exact Hd |]. split; [exact Hnew |].
  split; [rewrite Hnew; split; cents |].
  split; [rewrite Hnew; split; cents |].
  split.
  - rewrite Hnew.
    assert (H0 : inject_Z 0 <= Math_round (exact * 100)).
    { apply Math_round_ge. change (inject_Z 0) with 0. lra. }
    change (inject_Z 0) with 0 in H0. cents.
  - intros Hcent. rewrite Hnew.
    assert (H1 : inject_Z 1 <= Math_round (exact * 100)).
    { apply Math_round_ge. change (inject_Z 1) with 1. lra. }
    change (inject_Z 1) with 1 in H1. cents.
Qed.

(** A price under 1/210 is rounded to zero by every draw. *)
Lemma updateAsset_subcent (r : number) (asset : Asset) :
  0 <= r -> r < 1 ->
  0 < currentPrice asset -> currentPrice asset < 1 # 210 ->
  currentPrice (updateAsset r asset) == 0.
Proof.
  intros Hr0 Hr1 Hp Hsmall. cbn [updateAsset currentPrice].
  set (p := currentPrice asset) in *.
  set (m := 1 + (r - (1 # 2)) * 10 / 100).
  assert (Hm : 95 # 100 <= m /\ m < 105 # 100) by (unfold m; split; cents).
  destruct Hm as [Hm1 Hm2].
  assert (H1 : 0 <= p * m) by (apply Qmult_le_0_compat; lra).
  assert (H2 : 0 < ((1 # 210) - p) * m) by (apply Qmult_lt_0_compat; lra).
  rewrite (Math_round_zero (p * m * 100)).
  - reflexivity.
  - lra.
  - lra.
Qed.

(** The same, position by position in the list, the draws of the oracle
    being in [0, 1) as those of [Math.random] are. *)
Lemma updateAssetPrices_price_bound (random : nat -> number) (k i : nat)
    (assets : list Asset) (a : Asset) :
  (forall n, 0 <= random n /\ random n < 1) ->
  nth_error assets i = Some a -> 0 < currentPrice a ->
  exists (b : Asset) (delta : number),
    nth_error (updateAssetPrices random k assets) i = Some b
    /\ (-5 <= delta /\ delta < 5)
    /\ currentPrice b
       == Math_round (currentPrice a * (1 + delta / 100) * 100) / 100
    /\ ((95 # 100) * currentPrice a - (1 # 200) < currentPrice b
        /\ currentPrice b < (105 # 100) * currentPrice a + (1 # 200))
    /\ 0 <= currentPrice b
    /\ (1 # 100 <= currentPrice a -> 1 # 100 <= currentPrice b).
Proof.
  intros Hrange Hi Hp.
  destruct (Hrange (k + i)%nat) as [Hr0 Hr1].
  exists (updateAsset (random (k + i)%nat) a),
         ((random (k + i)%nat - (1 # 2)) * 10).
  split; [now apply updateAssetPrices_nth |].
  pose proof (updateAsset_price (random (k + i)%nat) a Hr0 Hr1 Hp) as H.
  cbv zeta in H. tauto.
Qed.

(** C1, where the code departs from the claim.  An asset quoted at 0.001 has
    a strictly positive price; whatever is drawn for it (here 0, 1/2 and
    0.999, that is a change of -5, 0 and +4.99 percent), its price after
    [updateAssetPrices] is 0: not strictly positive, and not within the 5
    percent of the comment in the source. *)
Theorem updateAssetPrices_subcent_price_vanishes :
  let random := fun k : nat => nth k [0; 1 # 2; 999 # 1000] 0 in
  let assets := [Fixtures.subcent; Fixtures.subcent; Fixtures.subcent] in
  Forall (fun a => 0 < currentPrice a) assets
  /\ Forall (fun r => 0 <= r /\ r < 1) (map random [0; 1; 2]%nat)
  /\ Forall (fun b => currentPrice b == 0 /\ ~ 0 < currentPrice b)
            (updateAssetPrices random 0 assets).
Proof.
  cbv zeta. split; [| split].
  - repeat constructor.
  - repeat constructor; discriminate.
  - repeat constructor; try (vm_compute; reflexivity);
      intro H; vm_compute in H; discriminate H.
Qed.

Module Binary64Facts.
Import PrimFloat.
#[local] Set Warnings "-inexact-float".

(** The same three ticks on IEEE doubles: the price 0.001 becomes 0 there
    too, while 150 moves inside its band. *)
Example tickedPrice_subcent :
  map (fun r => Binary64.tickedPrice r 0.001) [0; 0.5; 0.999]%float
  = [0; 0; 0]%float
  /\ map (fun r => Binary64.tickedPrice r 150) [0; 0.5; 0.75]%float
     = [142.5; 150; 153.75]%float.
Proof. split; reflexivity. Qed.

(** The ends of the range of the percentage on IEEE doubles: the draw 0
    gives -5 and the largest double under 1 gives 5. *)
Example tickedPercent_ends :
  map Binary64.tickedPercent [0; 0.5; 0x1.fffffffffffffp-1]%float
  = [-5; 0; 5]%float.
Proof. reflexivity. Qed.

End Binary64Facts.


(** * Further properties of the code

    ** Lists: sorted lists, filters and permutations *)

Lemma StronglySorted_impl {A : Type} (R S : A -> A -> Prop) (l : list A) :
  (forall a b, R a b -> S a b) -> StronglySorted R l -> StronglySorted S l.
Proof.
  intros HRS. induction 1 as [| x t Ht IH Hx]; constructor.
  - exact IH.
  - revert Hx. apply Forall_impl. intros b. apply HRS.
Qed.

Lemma StronglySorted_filter {A : Type} (R : A -> A -> Prop) (f : A -> bool)
    (l : list A) :
  StronglySorted R l -> StronglySorted R (filter f l).
Proof.
  induction 1 as [| x t Ht IH Hx]; cbn [filter]; [constructor |].
  destruct (f x); [| exact IH].
  constructor; [exact IH |].
  rewrite Forall_forall in *. intros b Hb.
  apply filter_In in Hb. now apply Hx.
Qed.

Lemma StronglySorted_snoc {A : Type} (R : A -> A -> Prop) (l : list A)
    (x : A) :
  StronglySorted R l -> Forall (fun a => R a x) l ->
  StronglySorted R (l ++ [x]).
Proof.
  induction 1 as [| y t Ht IH Hy]; intros Hall; cbn [app].
  - repeat constructor.
  - inversion Hall as [| ? ? Hyx Ht']; subst.
    constructor; [now apply IH |].
    apply Forall_app. split; [exact Hy | now constructor].
Qed.

Lemma StronglySorted_rev {A : Type} (R : A -> A -> Prop) (l : list A) :
  StronglySorted R l -> StronglySorted (fun a b => R b a) (rev l).
Proof.
  induction 1 as [| x t Ht IH Hx]; cbn [rev]; [constructor |].
  apply StronglySorted_snoc; [exact IH |].
  rewrite Forall_forall in *. intros b Hb.
  apply Hx. now apply in_rev.
Qed.

Lemma Permutation_filter_compat {A : Type} (f : A -> bool) (l l' : list A) :
  Permutation l l' -> Permutation (filter f l) (filter f l').
Proof.
  induction 1 as [| x l l' H IH | x y l | l l' l'' H1 IH1 H2 IH2];
    cbn [filter].
  - apply perm_nil.
  - destruct (f x); [now apply perm_skip | exact IH].
  - destruct (f x), (f y); try apply Permutation_refl. apply perm_swap.
  - now apply Permutation_trans with (filter f l').
Qed.

Lemma filter_comm {A : Type} (f g : A -> bool) (l : list A) :
  filter f (filter g l) = filter g (filter f l).
Proof.
  induction l as [| x t IH]; [reflexivity |]. cbn [filter].
  destruct (f x) eqn:Hf, (g x) eqn:Hg; cbn [filter];
    rewrite ?Hf, ?Hg, IH; reflexivity.
Qed.

Lemma filter_idem {A : Type} (f : A -> bool) (l : list A) :
  filter f (filter f l) = filter f l.
Proof.
  induction l as [| x t IH]; [reflexivity |]. cbn [filter].
  destruct (f x) eqn:Hf; cbn [filter]; rewrite ?Hf, IH; reflexivity.
Qed.

Lemma filter_none {A : Type} (f : A -> bool) (l : list A) :
  Forall (fun a => f a = false) l -> filter f l = [].
Proof.
  induction 1 as [| x t Hx Ht IH]; [reflexivity |].
  cbn [filter]. now rewrite Hx.
Qed.

(** Where one test implies another, what passes the first is a subsequence
    of what passes the second. *)
Lemma Subseq_filter_imp {A : Type} (f g : A -> bool) (l : list A) :
  (forall a, f a = true -> g a = true) -> Subseq (filter f l) (filter g l).
Proof.
  intros Hfg. induction l as [| x t IH]; cbn [filter]; [apply Subseq_nil |].
  destruct (f x) eqn:Hf.
  - rewrite (Hfg x Hf). now apply Subseq_keep.
  - destruct (g x); [now apply Subseq_drop | exact IH].
Qed.

Lemma Subseq_length {A : Type} (l1 l2 : list A) :
  Subseq l1 l2 -> (List.length l1 <= List.length l2)%nat.
Proof. induction 1; simpl; lia. Qed.

Lemma Subseq_map {A B : Type} (f : A -> B) (l1 l2 : list A) :
  Subseq l1 l2 -> Subseq (map f l1) (map f l2).
Proof.
  induction 1; cbn [map];
    [apply Subseq_nil | now apply Subseq_drop | now apply Subseq_keep].
Qed.

Lemma Subseq_NoDup {A : Type} (l1 l2 : list A) :
  Subseq l1 l2 -> NoDup l2 -> NoDup l1.
Proof.
  induction 1 as [| x l1 l2 H IH | x l1 l2 H IH]; intros Hnd.
  - exact Hnd.
  - inversion Hnd; subst. now apply IH.
  - inversion Hnd as [| ? ? Hx Hnd']; subst. constructor; [| now apply IH].
    intros Hin. apply Hx. now apply (Subseq_In l1 l2).
Qed.

(** ** More on the sort stage *)

Lemma sameKey_common (field : SortField) (k x y : Asset) :
  sameKey field k x = true -> sameKey field k y = true ->
  sameKey field x y = true.
Proof.
  destruct field; simpl; intros Hx Hy.
  - apply String.eqb_eq in Hx, Hy. apply String.eqb_eq. congruence.
  - apply num_eq_iff in Hx, Hy. apply num_eq_iff. now rewrite <- Hx, <- Hy.
Qed.

Lemma sortAssets_in_order (assets : list Asset) (field : SortField)
    (direction : SortDirection) :
  StronglySorted (in_order (compareAssets field direction))
                 (sortAssets assets field direction).
Proof.
  apply Sorted_StronglySorted.
  - intros a b c. apply compareAssets_in_order_trans.
  - apply js_sort_sorted. apply compareAssets_asym.
Qed.

(** X1.  The output of [sortAssets] is in key order: ascending, the key of an
    asset (case-folded name, or dailyChangePercent) is at most the key of
    every asset after it; descending, at least. *)
Theorem sortAssets_ordered (assets : list Asset) (field : SortField)
    (direction : SortDirection) :
  StronglySorted (keyOrder field direction)
                 (sortAssets assets field direction).
Proof.
  apply StronglySorted_impl
    with (R := in_order (compareAssets field direction)).
  - intros a b H. now apply compareAssets_in_order_iff in H.
  - apply sortAssets_in_order.
Qed.

(** Filtering a sorted array and sorting the filtered array give the same
    array. *)
Lemma sortAssets_filter (p : Asset -> bool) (assets : list Asset)
    (field : SortField) (direction : SortDirection) :
  filter p (sortAssets assets field direction)
  = sortAssets (filter p assets) field direction.
Proof.
  unfold sortAssets.
  apply js_sort_determined with (tied := sameKey field).
  - apply compareAssets_asym.
  - apply compareAssets_in_order_trans.
  - apply sameKey_refl.
  - apply sameKey_both.
  - apply Permutation_filter_compat, js_sort_perm.
  - apply StronglySorted_Sorted, StronglySorted_filter.
    apply sortAssets_in_order.
  - intros k. rewrite filter_comm.
    rewrite (js_sort_tied (compareAssets field direction) (sameKey field k)).
    + apply filter_comm.
    + intros x y. apply sameKey_in_order.
  - intros k x y. apply sameKey_in_order.
Qed.

(** With pairwise different keys, at most one asset has the key of [k]. *)
Lemma distinct_keys_class (field : SortField) (k : Asset)
    (assets : list Asset) :
  ForallOrdPairs (fun a b => sameKey field a b = false) assets ->
  (List.length (filter (sameKey field k) assets) <= 1)%nat.
Proof.
  induction 1 as [| x t Hx Ht IH]; cbn [filter]; [simpl; lia |].
  destruct (sameKey field k x) eqn:Hkx; [| exact IH].
  rewrite filter_none; [simpl; lia |].
  revert Hx. apply Forall_impl. intros b Hxb.
  destruct (sameKey field k b) eqn:Hkb; [| reflexivity].
  now rewrite (sameKey_common field k x b Hkx Hkb) in Hxb.
Qed.

Lemma rev_short {A : Type} (l : list A) :
  (List.length l <= 1)%nat -> rev l = l.
Proof. destruct l as [| x [| y t]]; simpl; intros; [easy | easy | lia]. Qed.

(** X3.  When no two assets have equal keys, the descending output is the
    ascending output reversed.  (With ties it is not: a group of ties keeps
    the order of the input under both directions.) *)
Theorem sortAssets_desc_rev (assets : list Asset) (field : SortField) :
  ForallOrdPairs (fun a b => sameKey field a b = false) assets ->
  sortAssets assets field desc = rev (sortAssets assets field asc).
Proof.
  intros Hdistinct. symmetry. unfold sortAssets at 2.
  apply js_sort_determined with (tied := sameKey field).
  - apply compareAssets_asym.
  - apply compareAssets_in_order_trans.
  - apply sameKey_refl.
  - apply sameKey_both.
  - apply Permutation_trans with (sortAssets assets field asc).
    + apply Permutation_sym, Permutation_rev.
    + apply js_sort_perm.
  - apply StronglySorted_Sorted.
    apply StronglySorted_impl
      with (R := fun a b => in_order (compareAssets field asc) b a).
    + intros a b H. unfold in_order in *.
      now rewrite compareAssets_mirror.
    + apply StronglySorted_rev, sortAssets_in_order.
  - intros k. rewrite filter_rev.
    unfold sortAssets.
    rewrite (js_sort_tied (compareAssets field asc) (sameKey field k)).
    + apply rev_short, distinct_keys_class, Hdistinct.
    + intros x y. apply sameKey_in_order.
  - intros k x y. apply sameKey_in_order.
Qed.

Lemma sortAssets_desc_rev_witness :
  ForallOrdPairs (fun a b => sameKey by_name a b = false) Fixtures.mockAssets
  /\ sortAssets Fixtures.mockAssets by_name desc
     = rev (sortAssets Fixtures.mockAssets by_name asc).
Proof.
  assert (H : ForallOrdPairs (fun a b => sameKey by_name a b = false)
                             Fixtures.mockAssets)
    by (repeat constructor).
  split; [exact H |].
  exact (sortAssets_desc_rev Fixtures.mockAssets by_name H).
Defined.

Lemma sortAssets_determined_witness :
  let s := [Fixtures.apple; Fixtures.bitcoin; Fixtures.ethereum;
            Fixtures.tesla] in
  Permutation s Fixtures.mockAssets
  /\ Sorted (in_order (compareAssets by_name asc)) s
  /\ (forall k, filter (sameKey by_name k) s
                = filter (sameKey by_name k) Fixtures.mockAssets)
  /\ s = sortAssets Fixtures.mockAssets by_name asc.
Proof.
  intros s.
  assert (Hp : Permutation s Fixtures.mockAssets)
    by (do 2 apply perm_skip; apply perm_swap).
  assert (Hs : Sorted (in_order (compareAssets by_name asc)) s)
    by (repeat constructor).
  assert (Hf : forall k, filter (sameKey by_name k) s
                         = filter (sameKey by_name k) Fixtures.mockAssets).
  { intros k. unfold s, Fixtures.mockAssets. cbn [filter].
    destruct (sameKey by_name k Fixtures.tesla) eqn:Ht,
             (sameKey by_name k Fixtures.ethereum) eqn:He;
      try reflexivity.
    pose proof (sameKey_common by_name k _ _ Ht He) as Hte.
    discriminate Hte. }
  split; [exact Hp |]. split; [exact Hs |]. split; [exact Hf |].
  exact (sortAssets_determined Fixtures.mockAssets by_name asc s Hp Hs Hf).
Defined.

(** ** The stages as filters *)

Lemma filter_all {A : Type} (l : list A) : filter (fun _ => true) l = l.
Proof.
  induction l as [| x t IH]; cbn [filter]; [| rewrite IH]; reflexivity.
Qed.

Lemma filterAssets_keeps (assets : list Asset) (filterType : FilterType) :
  filterAssets assets filterType = filter (keeps filterType) assets.
Proof.
  unfold filterAssets, keeps.
  destruct (filterType =? "topGainers")%string; [reflexivity |].
  destruct (filterType =? "topLosers")%string; [reflexivity |].
  destruct (filterType =? "stocks")%string; [reflexivity |].
  destruct (filterType =? "crypto")%string; [reflexivity |].
  symmetry. apply filter_all.
Qed.

Lemma searchAssets_found (assets : list Asset) (searchQuery : string) :
  searchAssets assets searchQuery = filter (found searchQuery) assets.
Proof.
  unfold searchAssets, found.
  destruct (truthy searchQuery); [reflexivity |].
  symmetry. apply filter_all.
Qed.

Lemma processedAssets_stages (assets : list Asset) (searchQuery : string)
    (sortField : SortField) (sortDirection : SortDirection)
    (filterType : FilterType) :
  processedAssets assets searchQuery sortField sortDirection filterType
  = sortAssets (filter (found searchQuery) (filter (keeps filterType) assets))
               sortField sortDirection.
Proof.
  rewrite <- filterAssets_keeps, <- searchAssets_found.
  unfold processedAssets, searchAssets.
  destruct (truthy searchQuery); reflexivity.
Qed.

(** X4.  The order of the three stages does not matter to the result: the
    list the home screen renders (filter, search, sort) is also what the
    five other orders of [filterAssets], the search stage and [sortAssets]
    give. *)
Theorem processedAssets_any_order (assets : list Asset)
    (searchQuery : string) (sortField : SortField)
    (sortDirection : SortDirection) (filterType : FilterType) :
  let shown :=
    processedAssets assets searchQuery sortField sortDirection filterType in
  shown = sortAssets (filterAssets (searchAssets assets searchQuery)
                                   filterType)
                     sortField sortDirection
  /\ shown = searchAssets (sortAssets (filterAssets assets filterType)
                                      sortField sortDirection)
                          searchQuery
  /\ shown = filterAssets (sortAssets (searchAssets assets searchQuery)
                                      sortField sortDirection)
                          filterType
  /\ shown = searchAssets (filterAssets
                             (sortAssets assets sortField sortDirection)
                             filterType)
                          searchQuery
  /\ shown = filterAssets (searchAssets
                             (sortAssets assets sortField sortDirection)
                             searchQuery)
                          filterType.
Proof.
  cbv zeta. rewrite processedAssets_stages.
  rewrite !filterAssets_keeps, !searchAssets_found, !sortAssets_filter.
  rewrite (filter_comm (keeps filterType) (found searchQuery)).
  repeat split; reflexivity.
Qed.

(** ** More on the filter stage *)

Lemma filter_split_perm {A : Type} (f g : A -> bool) (l : list A) :
  (forall x, g x = negb (f x)) ->
  Permutation (filter f l ++ filter g l) l.
Proof.
  intros Hg. induction l as [| x t IH]; [apply perm_nil |].
  cbn [filter]. rewrite (Hg x). destruct (f x); cbn [negb app].
  - now apply perm_skip.
  - apply Permutation_sym, Permutation_cons_app, Permutation_sym, IH.
Qed.

(** X5.  The 'stocks' filter and the 'crypto' filter split the collection in
    two: each keeps exactly the assets of its type in the order of the
    input, every asset is in one of the two results and none in both. *)
Theorem filterAssets_by_type (assets : list Asset) :
  let stocks := filterAssets assets "stocks" in
  let cryptos := filterAssets assets "crypto" in
  (forall a, In a stocks <-> In a assets /\ type a = stock)
  /\ (forall a, In a cryptos <-> In a assets /\ type a = crypto)
  /\ Subseq stocks assets
  /\ Subseq cryptos assets
  /\ Permutation (stocks ++ cryptos) assets
  /\ (List.length stocks + List.length cryptos = List.length assets)%nat
  /\ (forall a, ~ (In a stocks /\ In a cryptos)).
Proof.
  cbv zeta. unfold filterAssets. cbn [String.eqb Ascii.eqb Bool.eqb].
  set (isStock := fun asset : Asset => AssetType_eqb (type asset) stock).
  set (isCrypto := fun asset : Asset => AssetType_eqb (type asset) crypto).
  assert (Hs : forall a, In a (filter isStock assets)
                         <-> In a assets /\ type a = stock).
  { intros a. unfold isStock. now rewrite filter_In, AssetType_eqb_eq. }
  assert (Hc : forall a, In a (filter isCrypto assets)
                         <-> In a assets /\ type a = crypto).
  { intros a. unfold isCrypto. now rewrite filter_In, AssetType_eqb_eq. }
  assert (Hp : Permutation (filter isStock assets ++ filter isCrypto assets)
                           assets).
  { apply filter_split_perm. intros x. unfold isStock, isCrypto.
    now destruct (type x). }
  split; [exact Hs |]. split; [exact Hc |].
  split; [apply Subseq_filter |]. split; [apply Subseq_filter |].
  split; [exact Hp |]. split.
  - rewrite <- length_app. now apply Permutation_length.
  - intros a [H1 H2]. apply Hs in H1. apply Hc in H2.
    destruct H1 as [_ H1], H2 as [_ H2]. congruence.
Qed.

(** X6.  Filters compose as tests do: applying a mode twice is applying it
    once, two modes may be applied in either order, and the opposite modes
    leave nothing (gainers then losers, stocks then crypto). *)
Theorem filterAssets_compose (assets : list Asset) (m1 m2 : FilterType) :
  filterAssets (filterAssets assets m1) m1 = filterAssets assets m1
  /\ filterAssets (filterAssets assets m1) m2
     = filterAssets (filterAssets assets m2) m1
  /\ filterAssets (filterAssets assets "topGainers") "topLosers" = []
  /\ filterAssets (filterAssets assets "stocks") "crypto" = [].
Proof.
  rewrite !filterAssets_keeps.
  split; [apply filter_idem |]. split; [apply filter_comm |].
  split.
  - apply filter_none, Forall_forall. intros a Ha.
    apply filter_In in Ha. destruct Ha as [_ Ha]. unfold keeps in *.
    cbn [String.eqb Ascii.eqb Bool.eqb] in *.
    destruct (sign_cases (dailyChangePercent a))
      as [(H1 & H2 & _) | [(H1 & H2 & _) | (H1 & H2 & _)]]; congruence.
  - apply filter_none, Forall_forall. intros a Ha.
    apply filter_In in Ha. destruct Ha as [_ Ha]. unfold keeps in *.
    cbn [String.eqb Ascii.eqb Bool.eqb] in *.
    now destruct (type a).
Qed.

(** ** More on the search stage *)

Lemma toLowerCase_empty (s : string) : toLowerCase s = "" <-> s = "".
Proof. destruct s; cbn [toLowerCase]; split; congruence. Qed.

Lemma string_app_assoc (s t u : string) :
  ((s ++ t) ++ u = s ++ (t ++ u))%string.
Proof.
  induction s as [| c s IH]; cbn [append]; [| rewrite IH]; reflexivity.
Qed.

Lemma string_app_nil_r (s : string) : (s ++ "")%string = s.
Proof.
  induction s as [| c s IH]; cbn [append]; [| rewrite IH]; reflexivity.
Qed.

Lemma Contains_refl (s : string) : Contains s s.
Proof. exists "", "". cbn [append]. now rewrite string_app_nil_r. Qed.

Lemma Contains_trans (s t u : string) :
  Contains s t -> Contains t u -> Contains s u.
Proof.
  intros (p1 & q1 & ->) (p2 & q2 & ->).
  exists (p1 ++ p2)%string, (q2 ++ q1)%string.
  now rewrite !string_app_assoc.
Qed.

Lemma Contains_empty (u : string) : Contains "" u -> u = "".
Proof.
  intros (pre & post & H). destruct pre as [| c pre]; [| discriminate H].
  destruct u as [| d u]; [reflexivity | discriminate H].
Qed.

(** X7.  Refining a query never brings a row back: when the case-folded
    text of one query contains the case-folded text of another, its result
    is a subsequence of the result of the other. *)
Theorem searchAssets_refines (assets : list Asset) (q1 q2 : string) :
  Contains (toLowerCase q2) (toLowerCase q1) ->
  Subseq (searchAssets assets q2) (searchAssets assets q1).
Proof.
  intros Hc. rewrite !searchAssets_found.
  apply Subseq_filter_imp. intros a. unfold found.
  destruct (truthy q1) eqn:H1; [| reflexivity].
  destruct (truthy q2) eqn:H2.
  - rewrite !matchesQuery_iff.
    intros [H | H]; [left | right];
      now apply Contains_trans with (t := toLowerCase q2).
  - exfalso. apply truthy_false_iff in H2. subst q2.
    cbn [toLowerCase] in Hc. apply Contains_empty in Hc.
    apply (proj1 (toLowerCase_empty q1)) in Hc. subst q1.
    discriminate H1.
Qed.

Lemma searchAssets_refines_witness :
  Contains (toLowerCase "Tesla") (toLowerCase "ES")
  /\ Subseq (searchAssets Fixtures.mockAssets5 "Tesla")
            (searchAssets Fixtures.mockAssets5 "ES").
Proof.
  assert (H : Contains (toLowerCase "Tesla") (toLowerCase "ES"))
    by (exists "t", "la"; reflexivity).
  split; [exact H |].
  exact (searchAssets_refines Fixtures.mockAssets5 "ES" "Tesla" H).
Defined.

(** X8.  The search does not see the case of the query: two queries with the
    same case-folded text give the same result. *)
Theorem searchAssets_case_blind (assets : list Asset) (q1 q2 : string) :
  toLowerCase q1 = toLowerCase q2 ->
  searchAssets assets q1 = searchAssets assets q2.
Proof.
  intros Hq. unfold searchAssets, matchesQuery.
  assert (Ht : truthy q1 = truthy q2).
  { destruct q1, q2; try reflexivity; discriminate Hq. }
  rewrite Ht, Hq. reflexivity.
Qed.

Lemma searchAssets_case_blind_witness :
  toLowerCase "BtC" = toLowerCase "btc"
  /\ searchAssets Fixtures.mockAssets5 "BtC"
     = searchAssets Fixtures.mockAssets5 "btc".
Proof.
  assert (H : toLowerCase "BtC" = toLowerCase "btc") by reflexivity.
  split; [exact H |].
  exact (searchAssets_case_blind Fixtures.mockAssets5 "BtC" "btc" H).
Defined.

(** X9.  Every asset of the collection is found by its own name and by its
    own symbol, typed in any case. *)
Theorem searchAssets_finds_own (assets : list Asset) (a : Asset)
    (q : string) :
  In a assets ->
  toLowerCase q = toLowerCase (name a)
  \/ toLowerCase q = toLowerCase (symbol a) ->
  In a (searchAssets assets q).
Proof.
  intros Hin Hq. rewrite searchAssets_found. apply filter_In.
  split; [exact Hin |]. unfold found.
  destruct (truthy q); [| reflexivity].
  apply matchesQuery_iff.
  destruct Hq as [-> | ->]; [left | right]; apply Contains_refl.
Qed.

Lemma searchAssets_finds_own_witness :
  In Fixtures.tesla Fixtures.mockAssets5
  /\ (toLowerCase "tsla" = toLowerCase (name Fixtures.tesla)
      \/ toLowerCase "tsla" = toLowerCase (symbol Fixtures.tesla))
  /\ In Fixtures.tesla (searchAssets Fixtures.mockAssets5 "tsla").
Proof.
  assert (H1 : In Fixtures.tesla Fixtures.mockAssets5)
    by (right; right; left; reflexivity).
  assert (H2 : toLowerCase "tsla" = toLowerCase (name Fixtures.tesla)
               \/ toLowerCase "tsla" = toLowerCase (symbol Fixtures.tesla))
    by (right; reflexivity).
  split; [exact H1 |]. split; [exact H2 |].
  exact (searchAssets_finds_own Fixtures.mockAssets5 Fixtures.tesla "tsla"
           H1 H2).
Defined.

(** ** The home screen *)

(** X10.  Whatever the query, the sort and the filter, the rows rendered are
    assets of the collection, each at most as often as it is there: the rows
    are a rearrangement of a subsequence of the collection.  So there are no
    more rows than assets, and the list keys (the ids) of the rows are
    pairwise different when the ids of the collection are.  Under the filter
    'all' and the empty query every asset is rendered exactly once. *)
Theorem processedAssets_rows (assets : list Asset) (searchQuery : string)
    (sortField : SortField) (sortDirection : SortDirection)
    (filterType : FilterType) :
  let rows :=
    processedAssets assets searchQuery sortField sortDirection filterType in
  (exists sub, Subseq sub assets /\ Permutation rows sub)
  /\ (forall a, In a rows -> In a assets)
  /\ (List.length rows <= List.length assets)%nat
  /\ (NoDup (map id assets) -> NoDup (map id rows))
  /\ Permutation (processedAssets assets "" sortField sortDirection "all")
                 assets.
Proof.
  cbv zeta. rewrite processedAssets_stages.
  set (sub := filter (found searchQuery) (filter (keeps filterType) assets)).
  assert (Hsub : Subseq sub assets).
  { apply Subseq_trans with (filter (keeps filterType) assets);
      apply Subseq_filter. }
  assert (Hp : Permutation (sortAssets sub sortField sortDirection) sub)
    by apply js_sort_perm.
  split; [now exists sub |]. split; [| split; [| split]].
  - intros a Ha. apply (Subseq_In sub assets a Hsub).
    now apply Permutation_in with (1 := Hp).
  - rewrite (Permutation_length Hp). now apply Subseq_length.
  - intros Hnd. apply Permutation_NoDup with (l := map id sub).
    + apply Permutation_map, Permutation_sym, Hp.
    + apply Subseq_NoDup with (l2 := map id assets); [| exact Hnd].
      now apply Subseq_map.
  - apply js_sort_perm.
Qed.

(** X11.  A press on a sort button changes the order of the rows and
    nothing else: the rows after the press are a rearrangement of the rows
    before it, and the assets, the query and the filter are as they were.
    Two presses on the button of the active field give back the very same
    rows. *)
Theorem handleSort_reorders (field : SortField) (s : HomeScreen.State) :
  Permutation (HomeScreen.rendered (HomeScreen.handleSort field s))
              (HomeScreen.rendered s)
  /\ HomeScreen.assets (HomeScreen.handleSort field s) = HomeScreen.assets s
  /\ HomeScreen.searchQuery (HomeScreen.handleSort field s)
     = HomeScreen.searchQuery s
  /\ HomeScreen.filterType (HomeScreen.handleSort field s)
     = HomeScreen.filterType s
  /\ (HomeScreen.sortField s = field ->
      HomeScreen.rendered
        (HomeScreen.handleSort field (HomeScreen.handleSort field s))
      = HomeScreen.rendered s).
Proof.
  destruct s as [A q f d F]. unfold HomeScreen.rendered, HomeScreen.handleSort.
  cbn [HomeScreen.assets HomeScreen.searchQuery HomeScreen.sortField
       HomeScreen.sortDirection HomeScreen.filterType].
  split; [| split; [| split; [| split]]].
  - destruct (SortField_eqb f field);
      cbn [HomeScreen.assets HomeScreen.searchQuery HomeScreen.sortField
           HomeScreen.sortDirection HomeScreen.filterType];
      rewrite !processedAssets_stages;
      (eapply Permutation_trans;
       [apply js_sort_perm | apply Permutation_sym, js_sort_perm]).
  - now destruct (SortField_eqb f field).
  - now destruct (SortField_eqb f field).
  - now destruct (SortField_eqb f field).
  - intros <-. now destruct f, d.
Qed.

(** X12.  The sort handler as a machine: after a press the pressed field is
    the active one; a press on another field starts it ascending; a press on
    the active field flips the direction, so two presses on it restore the
    state, and three presses on any button are one. *)
Theorem handleSort_cycle (field : SortField) (s : HomeScreen.State) :
  HomeScreen.sortField (HomeScreen.handleSort field s) = field
  /\ (HomeScreen.sortField s <> field ->
      HomeScreen.sortDirection (HomeScreen.handleSort field s) = asc)
  /\ (HomeScreen.sortField s = field ->
      HomeScreen.sortDirection (HomeScreen.handleSort field s)
        <> HomeScreen.sortDirection s
      /\ HomeScreen.handleSort field (HomeScreen.handleSort field s) = s)
  /\ HomeScreen.handleSort field
       (HomeScreen.handleSort field (HomeScreen.handleSort field s))
     = HomeScreen.handleSort field s.
Proof.
  destruct s as [A q f d F].
  split; [| split; [| split]].
  - now destruct f, field.
  - destruct f, field; cbn; congruence.
  - intros <-. split; destruct f, d; cbn; congruence.
  - now destruct f, field, d.
Qed.

(** *** Invariants of the event loop *)

Lemma Forall2_refl_all {A : Type} (R : A -> A -> Prop) (l : list A) :
  (forall a, R a a) -> Forall2 R l l.
Proof. intros HR. induction l; constructor; auto. Qed.

Lemma Forall2_trans_all {A : Type} (R : A -> A -> Prop) (l1 l2 l3 : list A) :
  (forall a b c, R a b -> R b c -> R a c) ->
  Forall2 R l1 l2 -> Forall2 R l2 l3 -> Forall2 R l1 l3.
Proof.
  intros HR H12. revert l3.
  induction H12 as [| a b l1 l2 Hab H12 IH]; intros l3 H23;
    inversion H23; subst; constructor; eauto.
Qed.

Lemma updateAssetPrices_related (R : Asset -> Asset -> Prop)
    (random : nat -> number) (k : nat) (assets : list Asset) :
  (forall n a, R a (updateAsset (random n) a)) ->
  Forall2 R assets (updateAssetPrices random k assets).
Proof.
  intros HR. revert k.
  induction assets as [| a t IH]; intros k; cbn [updateAssetPrices];
    constructor; auto.
Qed.

(** A relation between an asset and its update that is reflexive and
    transitive holds between the assets before and after any events. *)
Lemma run_related (R : Asset -> Asset -> Prop) (random : nat -> number)
    (events : list HomeScreen.Event) (s : HomeScreen.State) (k : nat) :
  (forall a, R a a) ->
  (forall a b c, R a b -> R b c -> R a c) ->
  (forall n a, R a (updateAsset (random n) a)) ->
  Forall2 R (HomeScreen.assets s)
            (HomeScreen.assets (fst (HomeScreen.run random (s, k) events))).
Proof.
  intros Hrefl Htrans Hupd. revert s k.
  induction events as [| e rest IH]; intros s k.
  - now apply Forall2_refl_all.
  - unfold HomeScreen.run in *. cbn [fold_left].
    destruct e; cbn [HomeScreen.step].
    + eapply Forall2_trans_all; [exact Htrans | | apply IH].
      cbn [HomeScreen.assets]. now apply updateAssetPrices_related.
    + apply (IH (HomeScreen.mkState _ _ _ _ _)).
    + eapply Forall2_trans_all; [exact Htrans | | apply IH].
      replace (HomeScreen.assets (HomeScreen.handleSort field s))
        with (HomeScreen.assets s)
        by (unfold HomeScreen.handleSort;
            now destruct (SortField_eqb _ _)).
      now apply Forall2_refl_all.
    + apply (IH (HomeScreen.mkState _ _ _ _ _)).
Qed.

Lemma run_draws (random : nat -> number) (events : list HomeScreen.Event)
    (s : HomeScreen.State) (k : nat) :
  List.length (HomeScreen.assets (fst (HomeScreen.run random (s, k) events)))
  = List.length (HomeScreen.assets s)
  /\ snd (HomeScreen.run random (s, k) events)
     = (k + ticksIn events * List.length (HomeScreen.assets s))%nat.
Proof.
  revert s k. induction events as [| e rest IH]; intros s k.
  - cbn. split; [reflexivity | lia].
  - unfold HomeScreen.run in *. cbn [fold_left].
    destruct e; cbn [HomeScreen.step ticksIn].
    + destruct (IH (HomeScreen.mkState
                      (updateAssetPrices random k (HomeScreen.assets s))
                      (HomeScreen.searchQuery s) (HomeScreen.sortField s)
                      (HomeScreen.sortDirection s) (HomeScreen.filterType s))
                   (k + List.length (HomeScreen.assets s))%nat)
        as [Hl Hk].
      cbn [HomeScreen.assets] in Hl, Hk.
      rewrite updateAssetPrices_length in Hl, Hk.
      split; [exact Hl | rewrite Hk; lia].
    + apply (IH (HomeScreen.mkState _ _ _ _ _)).
    + destruct (IH (HomeScreen.handleSort field s) k) as [Hl Hk].
      replace (HomeScreen.assets (HomeScreen.handleSort field s))
        with (HomeScreen.assets s) in Hl, Hk
        by (unfold HomeScreen.handleSort;
            now destruct (SortField_eqb _ _)).
      now split.
    + apply (IH (HomeScreen.mkState _ _ _ _ _)).
Qed.

Lemma sameIdentity_refl (a : Asset) : sameIdentity a a.
Proof. unfold sameIdentity. auto. Qed.

Lemma sameIdentity_trans (a b c : Asset) :
  sameIdentity a b -> sameIdentity b c -> sameIdentity a c.
Proof. unfold sameIdentity. intuition congruence. Qed.

Lemma updateAsset_identity (r : number) (a : Asset) :
  sameIdentity a (updateAsset r a).
Proof. unfold sameIdentity. cbn. auto. Qed.

(** X13.  The universe of assets is closed: whatever events reach the home
    screen (ticks, text typed, sort and filter buttons, in any number and
    order), the collection keeps its length and the asset at each position
    keeps its id, name, symbol and type.  Each tick takes one draw per asset
    and nothing else draws. *)
Theorem run_keeps_universe (random : nat -> number)
    (events : list HomeScreen.Event) (s : HomeScreen.State) (k : nat) :
  let final := HomeScreen.run random (s, k) events in
  Forall2 sameIdentity (HomeScreen.assets s) (HomeScreen.assets (fst final))
  /\ List.length (HomeScreen.assets (fst final))
     = List.length (HomeScreen.assets s)
  /\ map id (HomeScreen.assets (fst final)) = map id (HomeScreen.assets s)
  /\ snd final = (k + ticksIn events * List.length (HomeScreen.assets s))%nat.
Proof.
  cbv zeta.
  assert (H : Forall2 sameIdentity (HomeScreen.assets s)
                (HomeScreen.assets
                   (fst (HomeScreen.run random (s, k) events)))).
  { apply run_related.
    - apply sameIdentity_refl.
    - apply sameIdentity_trans.
    - intros n a. apply updateAsset_identity. }
  destruct (run_draws random events s k) as [Hl Hk].
  split; [exact H |]. split; [exact Hl |]. split; [| exact Hk].
  clear Hl Hk. induction H as [| a b l l' Hab H IH]; [reflexivity |].
  cbn [map]. destruct Hab as [-> _]. now rewrite IH.
Qed.

Lemma eighths_range (n : nat) : 0 <= eighths n /\ eighths n < 1.
Proof.
  unfold eighths, Qle, Qlt. cbn [Qnum Qden].
  pose proof (Nat.mod_upper_bound n 8). lia.
Qed.

Lemma Forall2_Forall_impl {A : Type} (P : A -> Prop) (l l' : list A) :
  Forall2 (fun a b => P a -> P b) l l' -> Forall P l -> Forall P l'.
Proof.
  induction 1 as [| a b l l' Hab H IH]; intros Hl; [constructor |].
  inversion Hl; subst. constructor; auto.
Qed.

(** X14.  A price of one cent or more never falls under one cent: if every
    asset is at 0.01 or above, then so is every asset after any events,
    whatever is drawn in [0, 1). *)
Theorem run_keeps_price_floor (random : nat -> number)
    (events : list HomeScreen.Event) (s : HomeScreen.State) (k : nat) :
  (forall n, 0 <= random n /\ random n < 1) ->
  Forall (fun a => 1 # 100 <= currentPrice a) (HomeScreen.assets s) ->
  Forall (fun a => 1 # 100 <= currentPrice a)
         (HomeScreen.assets (fst (HomeScreen.run random (s, k) events))).
Proof.
  intros Hrange. apply Forall2_Forall_impl.
  apply run_related with (R := fun a b => 1 # 100 <= currentPrice a ->
                                          1 # 100 <= currentPrice b).
  - auto.
  - auto.
  - intros n a Ha. destruct (Hrange n) as [H0 H1].
    assert (Hpos : 0 < currentPrice a) by lra.
    pose proof (updateAsset_price (random n) a H0 H1 Hpos) as H.
    cbv zeta in H. tauto.
Qed.

Lemma run_keeps_price_floor_witness :
  let random := eighths in
  let s := HomeScreen.initialState Fixtures.mockAssets in
  let events := [HomeScreen.Tick; HomeScreen.PressSort by_name;
                 HomeScreen.Tick] in
  (forall n, 0 <= random n /\ random n < 1)
  /\ Forall (fun a => 1 # 100 <= currentPrice a) (HomeScreen.assets s)
  /\ Forall (fun a => 1 # 100 <= currentPrice a)
            (HomeScreen.assets (fst (HomeScreen.run random (s, 0%nat) events))).
Proof.
  intros random s events.
  assert (Hr : forall n, 0 <= random n /\ random n < 1)
    by apply eighths_range.
  assert (Hs : Forall (fun a => 1 # 100 <= currentPrice a)
                      (HomeScreen.assets s))
    by (repeat constructor; discriminate).
  split; [exact Hr |]. split; [exact Hs |].
  exact (run_keeps_price_floor random events s 0%nat Hr Hs).
Defined.

Lemma updateAsset_zero (r : number) (a : Asset) :
  currentPrice a == 0 -> currentPrice (updateAsset r a) == 0.
Proof.
  intros Hp. cbn [updateAsset currentPrice].
  set (x := currentPrice a * (1 + (r - (1 # 2)) * 10 / 100) * 100).
  assert (Hx : x == 0) by (unfold x; rewrite Hp; ring).
  rewrite (Math_round_zero x).
  - reflexivity.
  - rewrite Hx. lra.
  - rewrite Hx. lra.
Qed.

(** X15.  A price of 0 is never left: whatever events follow and whatever is
    drawn, an asset whose price is 0 still has the price 0. *)
Theorem run_zero_price_stays (random : nat -> number)
    (events : list HomeScreen.Event) (s : HomeScreen.State) (k : nat) :
  Forall2 (fun a b => currentPrice a == 0 -> currentPrice b == 0)
          (HomeScreen.assets s)
          (HomeScreen.assets (fst (HomeScreen.run random (s, k) events))).
Proof.
  apply run_related with (R := fun a b => currentPrice a == 0 ->
                                          currentPrice b == 0).
  - auto.
  - auto.
  - intros n a. apply updateAsset_zero.
Qed.

(** *** One tick *)

Lemma updateAssetPrices_Forall (P : Asset -> Prop) (random : nat -> number)
    (k : nat) (assets : list Asset) :
  (forall n a, P (updateAsset (random n) a)) ->
  Forall P (updateAssetPrices random k assets).
Proof.
  intros HP. revert k.
  induction assets as [| a t IH]; intros k; cbn [updateAssetPrices];
    constructor; auto.
Qed.

Lemma Math_round_le (x : number) (n : Z) :
  x < inject_Z n + (1 # 2) -> Math_round x <= inject_Z n.
Proof.
  intros H. unfold Math_round. rewrite <- Zle_Qle.
  assert (Hlt : (Qfloor (x + (1 # 2)) < n + 1)%Z).
  { rewrite Zlt_Qlt. apply Qle_lt_trans with (x + (1 # 2)).
    - apply Qfloor_le.
    - rewrite inject_Z_plus. change (inject_Z 1) with 1. lra. }
  lia.
Qed.

(** X16.  After a tick every dailyChangePercent lies between -5 and 5,
    whatever the assets were before and whatever is drawn in [0, 1). *)
Theorem updateAssetPrices_change_range (random : nat -> number) (k : nat)
    (assets : list Asset) :
  (forall n, 0 <= random n /\ random n < 1) ->
  Forall (fun b => -5 <= dailyChangePercent b /\ dailyChangePercent b <= 5)
         (updateAssetPrices random k assets).
Proof.
  intros Hrange. apply updateAssetPrices_Forall. intros n a.
  destruct (Hrange n) as [H0 H1].
  cbn [updateAsset dailyChangePercent].
  set (x := (random n - (1 # 2)) * 10 * 100).
  assert (Hlo : inject_Z (-500) <= Math_round x).
  { apply Math_round_ge. change (inject_Z (-500)) with (-500). unfold x. lra. }
  assert (Hhi : Math_round x <= inject_Z 500).
  { apply Math_round_le. change (inject_Z 500) with 500. unfold x. lra. }
  change (inject_Z (-500)) with (-500) in Hlo.
  change (inject_Z 500) with 500 in Hhi.
  split; cents.
Qed.

Lemma updateAssetPrices_change_range_witness :
  (forall n, 0 <= eighths n /\ eighths n < 1)
  /\ Forall (fun b => -5 <= dailyChangePercent b /\ dailyChangePercent b <= 5)
            (updateAssetPrices eighths 0 Fixtures.mockAssets).
Proof.
  split; [apply eighths_range |].
  exact (updateAssetPrices_change_range eighths 0 Fixtures.mockAssets
           eighths_range).
Defined.

(** X23.  The assets of a collection are updated independently, each with
    its own draw: updating two collections one after the other is updating
    their concatenation, and the asset at position [i] becomes what the
    callback makes of it with draw number [k + i]. *)
Theorem updateAssetPrices_app (random : nat -> number) (k : nat)
    (l1 l2 : list Asset) :
  updateAssetPrices random k (l1 ++ l2)
  = updateAssetPrices random k l1
    ++ updateAssetPrices random (k + List.length l1) l2
  /\ (forall i a, nth_error (l1 ++ l2) i = Some a ->
        nth_error (updateAssetPrices random k (l1 ++ l2)) i
        = Some (updateAsset (random (k + i)%nat) a)).
Proof.
  split.
  - revert k. induction l1 as [| a t IH]; intros k; cbn.
    + now rewrite Nat.add_0_r.
    + now rewrite IH, Nat.add_succ_r.
  - intros i a. apply updateAssetPrices_nth.
Qed.

(** *** What a tick leaves in place *)

Lemma Forall2_filter_compat {A : Type} (R : A -> A -> Prop)
    (f g : A -> bool) (l l' : list A) :
  (forall a b, R a b -> f a = g b) ->
  Forall2 R l l' -> Forall2 R (filter f l) (filter g l').
Proof.
  intros Hfg. induction 1 as [| a b l l' Hab H IH]; [constructor |].
  cbn [filter]. rewrite (Hfg a b Hab).
  destruct (g b); [now constructor | exact IH].
Qed.

Lemma sort_insert_Forall2 {A : Type} (R : A -> A -> Prop)
    (cmp : A -> A -> Z) (x x' : A) (l l' : list A) :
  (forall a a' b b', R a a' -> R b b' -> cmp a b = cmp a' b') ->
  R x x' -> Forall2 R l l' ->
  Forall2 R (sort_insert cmp x l) (sort_insert cmp x' l').
Proof.
  intros Hcmp Hx. induction 1 as [| y y' l l' Hy H IH]; cbn [sort_insert].
  - repeat constructor. exact Hx.
  - rewrite (Hcmp x x' y y' Hx Hy).
    destruct (0 <? cmp x' y')%Z; repeat constructor; assumption.
Qed.

Lemma js_sort_Forall2 {A : Type} (R : A -> A -> Prop) (cmp : A -> A -> Z)
    (l l' : list A) :
  (forall a a' b b', R a a' -> R b b' -> cmp a b = cmp a' b') ->
  Forall2 R l l' -> Forall2 R (js_sort cmp l) (js_sort cmp l').
Proof.
  intros Hcmp. induction 1 as [| x x' l l' Hx H IH]; [constructor |].
  cbn [js_sort fold_right]. now apply sort_insert_Forall2.
Qed.

Lemma sameIdentity_ids (l l' : list Asset) :
  Forall2 sameIdentity l l' -> map id l' = map id l.
Proof.
  induction 1 as [| a b l l' Hab H IH]; [reflexivity |].
  cbn [map]. destruct Hab as [-> _]. now rewrite IH.
Qed.

(** X18.  A tick does not move the rows of a view that does not look at
    performance: sorted by name, under any query and any filter other than
    gainers and losers, the rows before and after [updateAssetPrices] are the
    same assets at the same positions (same id, name, symbol and type). *)
Theorem tick_keeps_name_view (random : nat -> number) (k : nat)
    (assets : list Asset) (searchQuery : string)
    (sortDirection : SortDirection) (filterType : FilterType) :
  filterType <> "topGainers" -> filterType <> "topLosers" ->
  let before :=
    processedAssets assets searchQuery by_name sortDirection filterType in
  let after :=
    processedAssets (updateAssetPrices random k assets) searchQuery by_name
                    sortDirection filterType in
  Forall2 sameIdentity before after /\ map id after = map id before.
Proof.
  intros Hg Hl. cbv zeta.
  assert (H : Forall2 sameIdentity
                (processedAssets assets searchQuery by_name sortDirection
                                 filterType)
                (processedAssets (updateAssetPrices random k assets)
                                 searchQuery by_name sortDirection
                                 filterType)).
  { rewrite !processedAssets_stages. unfold sortAssets.
    apply js_sort_Forall2.
    - intros a a' b b' (_ & Ha & _) (_ & Hb & _).
      unfold compareAssets. now rewrite Ha, Hb.
    - apply Forall2_filter_compat.
      + intros a b (_ & Hn & Hs & _). unfold found, matchesQuery.
        now rewrite Hn, Hs.
      + apply Forall2_filter_compat.
        * intros a b (_ & _ & _ & Ht). unfold keeps.
          apply String.eqb_neq in Hg, Hl. now rewrite Hg, Hl, Ht.
        * apply updateAssetPrices_identity. }
  split; [exact H | now apply sameIdentity_ids].
Qed.

Lemma tick_keeps_name_view_witness :
  "stocks" <> "topGainers" /\ "stocks" <> "topLosers"
  /\ Forall2 sameIdentity
       (processedAssets Fixtures.mockAssets5 "inc" by_name desc "stocks")
       (processedAssets (updateAssetPrices eighths 0 Fixtures.mockAssets5)
                        "inc" by_name desc "stocks")
  /\ map id (processedAssets (updateAssetPrices eighths 0 Fixtures.mockAssets5)
                             "inc" by_name desc "stocks")
     = map id (processedAssets Fixtures.mockAssets5 "inc" by_name desc
                               "stocks").
Proof.
  assert (H1 : "stocks" <> "topGainers") by discriminate.
  assert (H2 : "stocks" <> "topLosers") by discriminate.
  split; [exact H1 |]. split; [exact H2 |].
  exact (tick_keeps_name_view eighths 0 Fixtures.mockAssets5 "inc" desc
           "stocks" H1 H2).
Defined.

(** ** More on the similarity recommender *)

Lemma getSimilarAssets_isPeer (assets : list Asset) (currentAsset : Asset)
    (limit : option Z) :
  getSimilarAssets assets currentAsset limit
  = slice0 (filter (isPeer currentAsset) assets)
           (match limit with Some n => n | None => 3%Z end).
Proof. reflexivity. Qed.

(** X19.  [getSimilarAssets] returns the first peers of the collection (the
    assets of the focal type with another id): for a limit [n >= 0], or 3
    when none is passed, the first [n] of them, all of them when there are
    fewer; for a negative limit, all but the last [-n].  What is left out
    comes after what is returned. *)
Theorem getSimilarAssets_first_peers (assets : list Asset) (focal : Asset)
    (limit : option Z) :
  let n := match limit with Some n => n | None => 3%Z end in
  let peers := filter (isPeer focal) assets in
  let result := getSimilarAssets assets focal limit in
  (exists rest, peers = result ++ rest)
  /\ Z.of_nat (List.length result)
     = (if (n <? 0)%Z
        then Z.max (Z.of_nat (List.length peers) + n) 0
        else Z.min n (Z.of_nat (List.length peers)))%Z.
Proof.
  cbv zeta. rewrite getSimilarAssets_isPeer. unfold slice0.
  set (peers := filter (isPeer focal) assets).
  set (n := match limit with Some n => n | None => 3%Z end).
  set (final := if (n <? 0)%Z
                then Z.max (Z.of_nat (List.length peers) + n) 0
                else Z.min n (Z.of_nat (List.length peers))).
  split.
  - exists (skipn (Z.to_nat final) peers). symmetry. apply firstn_skipn.
  - rewrite length_firstn. unfold final.
    destruct (n <? 0)%Z eqn:Hn; lia.
Qed.

Lemma Forall2_firstn {A : Type} (R : A -> A -> Prop) (n : nat)
    (l l' : list A) :
  Forall2 R l l' -> Forall2 R (firstn n l) (firstn n l').
Proof.
  intros H. revert n.
  induction H as [| a b l l' Hab H IH]; intros [| n]; cbn [firstn];
    constructor; auto.
Qed.

Lemma Forall2_same_length {A : Type} (R : A -> A -> Prop) (l l' : list A) :
  Forall2 R l l' -> List.length l = List.length l'.
Proof. induction 1; simpl; congruence. Qed.

(** X20.  A tick does not change which assets are similar: the similar
    assets computed from the updated collection for the updated focal asset
    are, position by position, the ones computed before the tick (same id,
    name, symbol and type).  Of the focal asset only the id and the type are
    looked at. *)
Theorem getSimilarAssets_after_tick (random : nat -> number) (k : nat)
    (assets : list Asset) (focal : Asset) (r : number) (limit : option Z) :
  Forall2 sameIdentity
    (getSimilarAssets assets focal limit)
    (getSimilarAssets (updateAssetPrices random k assets)
                      (updateAsset r focal) limit)
  /\ (forall focal' : Asset,
        id focal' = id focal -> type focal' = type focal ->
        getSimilarAssets assets focal' limit
        = getSimilarAssets assets focal limit).
Proof.
  split.
  - rewrite !getSimilarAssets_isPeer.
    assert (H : Forall2 sameIdentity
                  (filter (isPeer focal) assets)
                  (filter (isPeer (updateAsset r focal))
                          (updateAssetPrices random k assets))).
    { apply Forall2_filter_compat.
      - intros a b (Hi & _ & _ & Ht). unfold isPeer. cbn [updateAsset id type].
        now rewrite Hi, Ht.
      - apply updateAssetPrices_identity. }
    unfold slice0. rewrite <- (Forall2_same_length _ _ _ H).
    now apply Forall2_firstn.
  - intros focal' Hid Hty. unfold getSimilarAssets. now rewrite Hid, Hty.
Qed.

(** ** The detail screen *)

Lemma getSimilarAssets_In (assets : list Asset) (focal b : Asset)
    (limit : option Z) :
  In b (getSimilarAssets assets focal limit) ->
  In b assets /\ type b = type focal /\ id b <> id focal.
Proof.
  rewrite getSimilarAssets_isPeer. unfold slice0. intros Hb.
  apply (Subseq_In _ _ _ (Subseq_firstn _ _)) in Hb.
  apply filter_In in Hb. destruct Hb as [Hin Hp]. unfold isPeer in Hp.
  apply Bool.andb_true_iff in Hp. destruct Hp as [Hid Hty].
  split; [exact Hin |]. split.
  - now apply AssetType_eqb_eq.
  - now apply Bool.negb_true_iff, Z.eqb_neq in Hid.
Qed.

(** X21.  Browsing by similar assets stays inside one category: every asset
    the detail screen comes to show, however many similar assets were
    pressed on the way, has the type of the asset the screen was opened on,
    and is that asset or an asset of the imported data set.  At every stop at
    most three similar assets are offered, each of that type and none with
    the id of the asset shown. *)
Theorem detail_stays_in_category (initialAssets : list Asset)
    (start a : Asset) :
  AssetDetailScreen.Shown initialAssets start a ->
  type a = type start
  /\ (a = start \/ In a initialAssets)
  /\ (List.length (AssetDetailScreen.similarAssets initialAssets a) <= 3)%nat
  /\ Forall (fun b => type b = type start /\ id b <> id a
                      /\ In b initialAssets)
            (AssetDetailScreen.similarAssets initialAssets a).
Proof.
  intros Hshown.
  assert (H : type a = type start /\ (a = start \/ In a initialAssets)).
  { induction Hshown as [| a b Ha IH Hb]; [auto |].
    apply getSimilarAssets_In in Hb. destruct Hb as (Hin & Hty & _).
    destruct IH as [IHty _]. split; [congruence | now right]. }
  destruct H as [Hty Hin].
  split; [exact Hty |]. split; [exact Hin |]. split.
  - unfold AssetDetailScreen.similarAssets.
    rewrite getSimilarAssets_isPeer. unfold slice0.
    rewrite length_firstn. cbn [Z.ltb Z.compare]. lia.
  - apply Forall_forall. intros b Hb.
    apply getSimilarAssets_In in Hb. destruct Hb as (Hb1 & Hb2 & Hb3).
    split; [congruence | now split].
Qed.

Lemma detail_stays_in_category_witness :
  AssetDetailScreen.Shown Fixtures.mockAssets5 Fixtures.apple Fixtures.tesla
  /\ type Fixtures.tesla = type Fixtures.apple
  /\ (Fixtures.tesla = Fixtures.apple
      \/ In Fixtures.tesla Fixtures.mockAssets5)
  /\ (List.length
        (AssetDetailScreen.similarAssets Fixtures.mockAssets5 Fixtures.tesla)
      <= 3)%nat
  /\ Forall (fun b => type b = type Fixtures.apple
                      /\ id b <> id Fixtures.tesla
                      /\ In b Fixtures.mockAssets5)
            (AssetDetailScreen.similarAssets Fixtures.mockAssets5
                                             Fixtures.tesla).
Proof.
  assert (H : AssetDetailScreen.Shown Fixtures.mockAssets5 Fixtures.apple
                                      Fixtures.tesla).
  { apply AssetDetailScreen.Shown_press with (a := Fixtures.microsoft).
    - apply AssetDetailScreen.Shown_press with (a := Fixtures.apple).
      + apply AssetDetailScreen.Shown_start.
      + right. left. reflexivity.
    - right. left. reflexivity. }
  split; [exact H |].
  exact (detail_stays_in_category Fixtures.mockAssets5 Fixtures.apple
           Fixtures.tesla H).
Defined.

(** X22.  For an asset whose price is not negative, the sign prefix of the
    "Price Change" row agrees with the amount shown after it: the prefix is
    '+' (the change is counted positive) only when the amount is at least 0,
    and there is no prefix only when the amount is at most 0. *)
Theorem priceChange_sign (asset : Asset) :
  0 <= currentPrice asset ->
  (AssetDetailScreen.isPositive asset = true ->
   0 <= AssetDetailScreen.priceChange asset)
  /\ (AssetDetailScreen.isPositive asset = false ->
      AssetDetailScreen.priceChange asset <= 0).
Proof.
  intros Hp.
  unfold AssetDetailScreen.isPositive, AssetDetailScreen.priceChange, num_ge.
  set (p := currentPrice asset) in *. set (d := dailyChangePercent asset).
  split; intros H.
  - apply Bool.negb_true_iff, num_lt_false_iff in H.
    assert (H0 : 0 <= p * d) by now apply Qmult_le_0_compat.
    cents.
  - apply Bool.negb_false_iff, num_lt_iff in H.
    assert (H0 : 0 <= p * - d) by (apply Qmult_le_0_compat; lra).
    cents.
Qed.

Lemma priceChange_sign_witness :
  0 <= currentPrice Fixtures.bitcoin
  /\ (AssetDetailScreen.isPositive Fixtures.bitcoin = true ->
      0 <= AssetDetailScreen.priceChange Fixtures.bitcoin)
  /\ (AssetDetailScreen.isPositive Fixtures.bitcoin = false ->
      AssetDetailScreen.priceChange Fixtures.bitcoin <= 0).
Proof.
  assert (H : 0 <= currentPrice Fixtures.bitcoin) by discriminate.
  split; [exact H |].
  exact (priceChange_sign Fixtures.bitcoin H).
Defined.

(** ** The stages on the object store *)

Section StoreStagesFacts.
Import Store StoreStages.

Lemma bind_some {X Y : Type} (m : M X) (f : X -> M Y) (s s' : state) (x : X) :
  m s = Some (x, s') -> bind m f s = f x s'.
Proof. intros H. unfold bind. now rewrite H. Qed.

(** A pair of a reference and the object it points to. *)
Let linked (objs : list Asset) (p : ref * Asset) : Prop :=
  nth_error objs (fst p) = Some (snd p).

Lemma deref_combine (objs : list Asset) (elems : list ref)
    (vals : list Asset) :
  deref objs elems = Some vals ->
  Forall (linked objs) (combine elems vals)
  /\ map fst (combine elems vals) = elems
  /\ map snd (combine elems vals) = vals.
Proof.
  revert vals. induction elems as [| r t IH]; intros vals; cbn [deref].
  - intros [= <-]. cbn. auto.
  - destruct (nth_error objs r) as [o |] eqn:Hr; [| discriminate].
    destruct (deref objs t) as [os |]; [| discriminate].
    intros [= <-]. destruct (IH os eq_refl) as (H1 & H2 & H3).
    cbn [combine map fst snd]. rewrite H2, H3.
    split; [| auto]. constructor; [exact Hr | exact H1].
Qed.

Lemma deref_linked (objs : list Asset) (pairs : list (ref * Asset)) :
  Forall (linked objs) pairs ->
  deref objs (map fst pairs) = Some (map snd pairs).
Proof.
  induction 1 as [| p t Hp Ht IH]; [reflexivity |].
  cbn [map deref]. unfold linked in Hp. now rewrite Hp, IH.
Qed.

Lemma readObjects_ok (objs : list Asset) (arrs : list (list ref)) (k : nat)
    (elems : list ref) (vals : list Asset) :
  deref objs elems = Some vals ->
  readObjects elems (mkState (mkStore objs arrs) k)
  = Some (combine elems vals, mkState (mkStore objs arrs) k).
Proof.
  revert vals. induction elems as [| r t IH]; intros vals; cbn [deref].
  - now intros [= <-].
  - destruct (nth_error objs r) as [o |] eqn:Hr; [| discriminate].
    destruct (deref objs t) as [os |]; [| discriminate].
    intros [= <-]. cbn [readObjects].
    rewrite (bind_some _ _ _ (mkState (mkStore objs arrs) k) o)
      by (unfold readObject; cbn; now rewrite Hr).
    now rewrite (bind_some _ _ _ _ _ (IH os eq_refl)).
Qed.

Lemma filter_map_snd {X Y : Type} (f : Y -> bool) (l : list (X * Y)) :
  map snd (filter (fun p => f (snd p)) l) = filter f (map snd l).
Proof.
  induction l as [| p t IH]; [reflexivity |]. cbn [filter map].
  destruct (f (snd p)); cbn [map]; now rewrite IH.
Qed.

Lemma sort_insert_map {X Y : Type} (g : X -> Y) (cmp : Y -> Y -> Z) (x : X)
    (l : list X) :
  map g (sort_insert (fun p q => cmp (g p) (g q)) x l)
  = sort_insert cmp (g x) (map g l).
Proof.
  induction l as [| y t IH]; [reflexivity |]. cbn [sort_insert map].
  destruct (0 <? cmp (g x) (g y))%Z; cbn [map]; now rewrite ?IH.
Qed.

Lemma js_sort_map {X Y : Type} (g : X -> Y) (cmp : Y -> Y -> Z)
    (l : list X) :
  map g (js_sort (fun p q => cmp (g p) (g q)) l) = js_sort cmp (map g l).
Proof.
  induction l as [| x t IH]; [reflexivity |].
  cbn [js_sort fold_right map]. rewrite sort_insert_map.
  unfold js_sort in IH. now rewrite IH.
Qed.

Lemma replace_at_last {X : Type} (l : list X) (x y : X) :
  replace_at (List.length l) x (l ++ [y]) = l ++ [x].
Proof.
  induction l as [| z t IH]; [reflexivity |]. cbn. now rewrite IH.
Qed.

Lemma nth_error_last {X : Type} (l : list X) (x : X) :
  nth_error (l ++ [x]) (List.length l) = Some x.
Proof. rewrite nth_error_app2, Nat.sub_diag by lia. reflexivity. Qed.

Lemma grows_refl (h : store) : grows h h.
Proof. split; [reflexivity |]. exists []. now rewrite app_nil_r. Qed.

Lemma grows_trans (h1 h2 h3 : store) :
  grows h1 h2 -> grows h2 h3 -> grows h1 h3.
Proof.
  intros [Ho1 [e1 Ha1]] [Ho2 [e2 Ha2]]. split; [congruence |].
  exists (e1 ++ e2). now rewrite Ha2, Ha1, app_assoc.
Qed.

Lemma grows_contents (h h' : store) (a : ref) (v : list Asset) :
  grows h h' -> contents h a = Some v -> contents h' a = Some v.
Proof.
  intros [Ho [extra Ha]]. unfold contents. rewrite Ha, Ho.
  destruct (nth_error (arrays h) a) as [l |] eqn:Hl; [| discriminate].
  rewrite nth_error_app1 by (apply nth_error_Some; congruence).
  now rewrite Hl.
Qed.

Lemma grows_one (objs : list Asset) (arrs : list (list ref))
    (l : list ref) :
  grows (mkStore objs arrs) (mkStore objs (arrs ++ [l])).
Proof. split; [reflexivity | now exists [l]]. Qed.

(** [filter] on an array: a new array, last in the store, standing for the
    values that pass. *)
Lemma filterArray_ok (pred : Asset -> bool) (h : store) (k : nat) (a : ref)
    (input : list Asset) :
  contents h a = Some input ->
  exists refs,
    filterArray pred a (mkState h k)
    = Some (List.length (arrays h),
            mkState (mkStore (objects h) (arrays h ++ [refs])) k)
    /\ deref (objects h) refs = Some (filter pred input).
Proof.
  destruct h as [objs arrs]. unfold contents. cbn [arrays objects].
  destruct (nth_error arrs a) as [elems |] eqn:Ha; [| discriminate].
  intros Hin. destruct (deref_combine _ _ _ Hin) as (Hl & _ & Hs).
  exists (map fst (filter (fun p => pred (snd p)) (combine elems input))).
  split.
  - unfold filterArray.
    rewrite (bind_some _ _ _ (mkState (mkStore objs arrs) k) elems)
      by (unfold readArray; cbn; now rewrite Ha).
    rewrite (bind_some _ _ _ _ _ (readObjects_ok objs arrs k elems input Hin)).
    reflexivity.
  - rewrite deref_linked.
    + now rewrite filter_map_snd, Hs.
    + rewrite Forall_forall in *. intros p Hp.
      apply filter_In in Hp. now apply Hl.
Qed.

(** [[...assets].sort(cmp)]: a new array, last in the store, standing for
    the sorted values. *)
Lemma sortAssets_st_ok (field : SortField) (direction : SortDirection)
    (h : store) (k : nat) (a : ref) (input : list Asset) :
  contents h a = Some input ->
  exists refs,
    sortAssets_st a field direction (mkState h k)
    = Some (List.length (arrays h),
            mkState (mkStore (objects h) (arrays h ++ [refs])) k)
    /\ deref (objects h) refs = Some (sortAssets input field direction).
Proof.
  destruct h as [objs arrs]. unfold contents. cbn [arrays objects].
  destruct (nth_error arrs a) as [elems |] eqn:Ha; [| discriminate].
  intros Hin. destruct (deref_combine _ _ _ Hin) as (Hl & _ & Hs).
  set (cmp := compareAssets field direction).
  set (sorted := js_sort (fun p q => cmp (snd p) (snd q))
                         (combine elems input)).
  exists (map fst sorted). split.
  - unfold sortAssets_st, spread.
    rewrite (bind_some _ _ _ (mkState (mkStore objs (arrs ++ [elems])) k)
               (List.length arrs)).
    2:{ rewrite (bind_some _ _ _ (mkState (mkStore objs arrs) k) elems)
          by (unfold readArray; cbn; now rewrite Ha).
        reflexivity. }
    unfold sortArray.
    rewrite (bind_some _ _ _ (mkState (mkStore objs (arrs ++ [elems])) k)
               elems)
      by (unfold readArray; cbn; now rewrite nth_error_last).
    rewrite (bind_some _ _ _ _ _
               (readObjects_ok objs (arrs ++ [elems]) k elems input Hin)).
    fold cmp sorted.
    rewrite (bind_some _ _ _
               (mkState (mkStore objs (arrs ++ [map fst sorted])) k) tt).
    + reflexivity.
    + unfold writeArray. cbn [heap arrays objects draws].
      now rewrite nth_error_last, replace_at_last.
  - rewrite deref_linked.
    + unfold sorted. now rewrite js_sort_map, Hs.
    + rewrite Forall_forall in *. intros p Hp. apply Hl.
      apply Permutation_in with (2 := Hp). apply js_sort_perm.
Qed.

End StoreStagesFacts.

Lemma contents_last (objs : list Asset) (arrs : list (list Store.ref))
    (refs : list Store.ref) (v : list Asset) :
  Store.deref objs refs = Some v ->
  Store.contents (Store.mkStore objs (arrs ++ [refs])) (List.length arrs)
  = Some v.
Proof.
  intros H. unfold Store.contents. cbn [Store.arrays Store.objects].
  now rewrite nth_error_last.
Qed.

Lemma filterAssets_st_ok (h : Store.store) (k : nat) (a : Store.ref)
    (input : list Asset) (filterType : FilterType) :
  Store.contents h a = Some input ->
  exists (a' : Store.ref) (h' : Store.store),
    StoreStages.filterAssets_st a filterType (Store.mkState h k)
    = Some (a', Store.mkState h' k)
    /\ grows h h'
    /\ Store.contents h' a' = Some (filterAssets input filterType)
    /\ (selects filterType = false -> a' = a /\ h' = h)
    /\ (selects filterType = true -> a' = List.length (Store.arrays h)).
Proof.
  intros Hin. unfold StoreStages.filterAssets_st, filterAssets, selects.
  destruct h as [objs arrs].
  repeat match goal with
  | |- context [(filterType =? ?m)%string] =>
      destruct (filterType =? m)%string
  end;
  try (match goal with
       | |- context [StoreStages.filterArray ?p] =>
           destruct (filterArray_ok p _ k a input Hin) as (refs & Hrun & Hd)
       end;
       cbn [Store.arrays Store.objects] in *;
       exists (List.length arrs), (Store.mkStore objs (arrs ++ [refs]));
       split; [exact Hrun |]; split; [apply grows_one |];
       split; [now apply contents_last |];
       split; [discriminate | reflexivity]).
  exists a, (Store.mkStore objs arrs).
  split; [reflexivity |]. split; [apply grows_refl |].
  split; [exact Hin |]. split; [auto | discriminate].
Qed.

(** X24.  [filterAssets] never writes to the array it is given, and under
    the modes that select it returns a new array; under every other mode
    ('all' included) it returns the reference it was given, so caller and
    result share one array. *)
Theorem filterAssets_shares_input (h : Store.store) (k : nat) (a : Store.ref)
    (input : list Asset) (filterType : FilterType) :
  Store.contents h a = Some input ->
  exists (a' : Store.ref) (h' : Store.store),
    StoreStages.filterAssets_st a filterType (Store.mkState h k)
    = Some (a', Store.mkState h' k)
    /\ grows h h'
    /\ Store.contents h' a = Some input
    /\ Store.contents h' a' = Some (filterAssets input filterType)
    /\ (selects filterType = false -> a' = a /\ h' = h)
    /\ (selects filterType = true -> a' <> a).
Proof.
  intros Hin.
  destruct (filterAssets_st_ok h k a input filterType Hin)
    as (a' & h' & Hrun & Hg & Hc & Hsame & Hnew).
  exists a', h'. split; [exact Hrun |]. split; [exact Hg |].
  split; [now apply (grows_contents h h') |]. split; [exact Hc |].
  split; [exact Hsame |].
  intros Hsel. rewrite (Hnew Hsel).
  unfold Store.contents in Hin.
  destruct (nth_error (Store.arrays h) a) eqn:Ha; [| discriminate].
  assert (a < List.length (Store.arrays h))%nat
    by (apply nth_error_Some; congruence).
  lia.
Qed.

Lemma filterAssets_shares_input_witness :
  let h := Store.mkStore Fixtures.mockAssets5 [[0; 1; 2; 3; 4]%nat] in
  Store.contents h 0%nat = Some Fixtures.mockAssets5
  /\ exists (a' : Store.ref) (h' : Store.store),
       StoreStages.filterAssets_st 0%nat "crypto" (Store.mkState h 0%nat)
       = Some (a', Store.mkState h' 0%nat)
       /\ grows h h'
       /\ Store.contents h' 0%nat = Some Fixtures.mockAssets5
       /\ Store.contents h' a'
          = Some (filterAssets Fixtures.mockAssets5 "crypto")
       /\ (selects "crypto" = false -> a' = 0%nat /\ h' = h)
       /\ (selects "crypto" = true -> a' <> 0%nat).
Proof.
  intros h.
  assert (H : Store.contents h 0%nat = Some Fixtures.mockAssets5)
    by reflexivity.
  split; [exact H |].
  exact (filterAssets_shares_input h 0%nat 0%nat Fixtures.mockAssets5
           "crypto" H).
Defined.

(** X25.  [sortAssets] sorts a copy: although [sort] works in place, the
    array passed in still holds its assets in their order afterwards, no
    other array and no object of the store is changed, and the result is a
    new array that stands for the sorted list. *)
Theorem sortAssets_sorts_a_copy (h : Store.store) (k : nat) (a : Store.ref)
    (input : list Asset) (field : SortField) (direction : SortDirection) :
  Store.contents h a = Some input ->
  exists (a' : Store.ref) (h' : Store.store),
    StoreStages.sortAssets_st a field direction (Store.mkState h k)
    = Some (a', Store.mkState h' k)
    /\ grows h h'
    /\ a' <> a
    /\ Store.contents h' a = Some input
    /\ Store.contents h' a' = Some (sortAssets input field direction).
Proof.
  intros Hin.
  destruct (sortAssets_st_ok field direction h k a input Hin)
    as (refs & Hrun & Hd).
  destruct h as [objs arrs]. cbn [Store.arrays Store.objects] in *.
  exists (List.length arrs), (Store.mkStore objs (arrs ++ [refs])).
  assert (Hg : grows (Store.mkStore objs arrs)
                     (Store.mkStore objs (arrs ++ [refs])))
    by apply grows_one.
  split; [exact Hrun |]. split; [exact Hg |]. split; [| split].
  - unfold Store.contents in Hin. cbn [Store.arrays] in Hin.
    destruct (nth_error arrs a) eqn:Ha; [| discriminate].
    assert (a < List.length arrs)%nat by (apply nth_error_Some; congruence).
    lia.
  - now apply (grows_contents _ _ a input Hg).
  - now apply contents_last.
Qed.

Lemma sortAssets_sorts_a_copy_witness :
  let h := Store.mkStore Fixtures.mockAssets5 [[0; 1; 2; 3; 4]%nat] in
  Store.contents h 0%nat = Some Fixtures.mockAssets5
  /\ exists (a' : Store.ref) (h' : Store.store),
       StoreStages.sortAssets_st 0%nat by_dailyChangePercent desc
                                 (Store.mkState h 0%nat)
       = Some (a', Store.mkState h' 0%nat)
       /\ grows h h'
       /\ a' <> 0%nat
       /\ Store.contents h' 0%nat = Some Fixtures.mockAssets5
       /\ Store.contents h' a'
          = Some (sortAssets Fixtures.mockAssets5 by_dailyChangePercent desc).
Proof.
  intros h.
  assert (H : Store.contents h 0%nat = Some Fixtures.mockAssets5)
    by reflexivity.
  split; [exact H |].
  exact (sortAssets_sorts_a_copy h 0%nat 0%nat Fixtures.mockAssets5
           by_dailyChangePercent desc H).
Defined.

(** X26.  The memo of the home screen never writes to the state it reads:
    whatever the query, the sort and the filter (also with the filter 'all'
    and no query, where the array passed on to the sort is the state array
    itself), [processedAssets] returns a new array that stands for the
    rendered list, and every array and object that existed before the call,
    the assets state among them, is unchanged. *)
Theorem processedAssets_leaves_state (h : Store.store) (k : nat)
    (a : Store.ref) (input : list Asset) (searchQuery : string)
    (sortField : SortField) (sortDirection : SortDirection)
    (filterType : FilterType) :
  Store.contents h a = Some input ->
  exists (a' : Store.ref) (h' : Store.store),
    StoreStages.processedAssets_st a searchQuery sortField sortDirection
                                   filterType (Store.mkState h k)
    = Some (a', Store.mkState h' k)
    /\ grows h h'
    /\ (List.length (Store.arrays h) <= a')%nat
    /\ Store.contents h' a = Some input
    /\ Store.contents h' a'
       = Some (processedAssets input searchQuery sortField sortDirection
                               filterType).
Proof.
  intros Hin. unfold StoreStages.processedAssets_st.
  destruct (filterAssets_st_ok h k a input filterType Hin)
    as (a1 & h1 & Hrun1 & Hg1 & Hc1 & _).
  rewrite (bind_some _ _ _ _ _ Hrun1).
  assert (Hsearch : exists (a2 : Store.ref) (h2 : Store.store),
             (if truthy searchQuery
              then StoreStages.filterArray (matchesQuery searchQuery) a1
              else Store.ret a1) (Store.mkState h1 k)
             = Some (a2, Store.mkState h2 k)
             /\ grows h1 h2
             /\ Store.contents h2 a2
                = Some (searchAssets (filterAssets input filterType)
                                     searchQuery)).
  { unfold searchAssets. destruct (truthy searchQuery).
    - destruct (filterArray_ok (matchesQuery searchQuery) h1 k a1 _ Hc1)
        as (refs & Hrun & Hd).
      destruct h1 as [objs1 arrs1]. cbn [Store.arrays Store.objects] in *.
      exists (List.length arrs1), (Store.mkStore objs1 (arrs1 ++ [refs])).
      split; [exact Hrun |]. split; [apply grows_one |].
      now apply contents_last.
    - exists a1, h1. split; [reflexivity |]. split; [apply grows_refl |].
      exact Hc1. }
  destruct Hsearch as (a2 & h2 & Hrun2 & Hg2 & Hc2).
  rewrite (bind_some _ _ _ _ _ Hrun2).
  destruct (sortAssets_st_ok sortField sortDirection h2 k a2 _ Hc2)
    as (refs & Hrun3 & Hd3).
  assert (Hg12 : grows h h2) by (now apply grows_trans with h1).
  destruct h2 as [objs2 arrs2]. cbn [Store.arrays Store.objects] in *.
  exists (List.length arrs2), (Store.mkStore objs2 (arrs2 ++ [refs])).
  assert (Hg : grows h (Store.mkStore objs2 (arrs2 ++ [refs]))).
  { apply grows_trans with (Store.mkStore objs2 arrs2); [exact Hg12 |].
    apply grows_one. }
  split; [exact Hrun3 |]. split; [exact Hg |]. split; [| split].
  - destruct Hg12 as [_ [extra He]]. cbn [Store.arrays] in He.
    rewrite He, length_app. lia.
  - now apply (grows_contents _ _ a input Hg).
  - rewrite (contents_last _ _ _ _ Hd3). reflexivity.
Qed.

Lemma processedAssets_leaves_state_witness :
  let h := Store.mkStore Fixtures.mockAssets5 [[0; 1; 2; 3; 4]%nat] in
  Store.contents h 0%nat = Some Fixtures.mockAssets5
  /\ exists (a' : Store.ref) (h' : Store.store),
       StoreStages.processedAssets_st 0%nat "" by_name asc "all"
                                      (Store.mkState h 0%nat)
       = Some (a', Store.mkState h' 0%nat)
       /\ grows h h'
       /\ (List.length (Store.arrays h) <= a')%nat
       /\ Store.contents h' 0%nat = Some Fixtures.mockAssets5
       /\ Store.contents h' a'
          = Some (processedAssets Fixtures.mockAssets5 "" by_name asc "all").
Proof.
  intros h.
  assert (H : Store.contents h 0%nat = Some Fixtures.mockAssets5)
    by reflexivity.
  split; [exact H |].
  exact (processedAssets_leaves_state h 0%nat 0%nat Fixtures.mockAssets5 ""
           by_name asc "all" H).
Defined.

(** ** Ticks and the performance filters *)

Lemma Math_round_pos_iff (x : number) : 0 < Math_round x <-> 1 # 2 <= x.
Proof.
  split.
  - intros H. pose proof (Math_round_bounds x) as [_ Hup].
    unfold Math_round in *. change 0 with (inject_Z 0) in H.
    rewrite <- Zlt_Qlt in H.
    assert (H1 : (1 <= Qfloor (x + (1 # 2)))%Z) by lia.
    rewrite Zle_Qle in H1. change (inject_Z 1) with 1 in H1. lra.
  - intros H.
    assert (H1 : inject_Z 1 <= Math_round x).
    { apply Math_round_ge. change (inject_Z 1) with 1. lra. }
    change (inject_Z 1) with 1 in H1. lra.
Qed.

Lemma Math_round_neg_iff (x : number) : Math_round x < 0 <-> x < - (1 # 2).
Proof.
  split.
  - intros H. pose proof (Math_round_bounds x) as [Hlo _].
    unfold Math_round in *. change 0 with (inject_Z 0) in H.
    rewrite <- Zlt_Qlt in H.
    assert (H1 : (Qfloor (x + (1 # 2)) <= -1)%Z) by lia.
    rewrite Zle_Qle in H1. change (inject_Z (-1)) with (-1) in H1. lra.
  - intros H.
    assert (H1 : Math_round x <= inject_Z (-1)).
    { apply Math_round_le. change (inject_Z (-1)) with (-1). lra. }
    change (inject_Z (-1)) with (-1) in H1. lra.
Qed.

(** X27.  Which performance filter an asset passes after a tick is decided
    by its draw alone: it is a gainer exactly when the draw is at least
    0.5005, a loser exactly when the draw is below 0.4995, and in between its
    dailyChangePercent is 0 and it passes neither filter. *)
Theorem tick_performance_by_draw (r : number) (asset : Asset) :
  (keeps "topGainers" (updateAsset r asset) = true <-> 1001 # 2000 <= r)
  /\ (keeps "topLosers" (updateAsset r asset) = true <-> r < 999 # 2000)
  /\ (999 # 2000 <= r -> r < 1001 # 2000 ->
      dailyChangePercent (updateAsset r asset) == 0).
Proof.
  unfold keeps. cbn [String.eqb Ascii.eqb Bool.eqb updateAsset
                     dailyChangePercent].
  set (x := (r - (1 # 2)) * 10 * 100).
  pose proof (Math_round_pos_iff x) as Hpos.
  pose proof (Math_round_neg_iff x) as Hneg.
  split; [| split].
  - rewrite num_gt_iff. split; intros H.
    + assert (H' : 0 < Math_round x) by cents.
      apply Hpos in H'. unfold x in H'. lra.
    + assert (H' : 0 < Math_round x) by (apply Hpos; unfold x; lra).
      cents.
  - rewrite num_lt_iff. split; intros H.
    + assert (H' : Math_round x < 0) by cents.
      apply Hneg in H'. unfold x in H'. lra.
    + assert (H' : Math_round x < 0) by (apply Hneg; unfold x; lra).
      cents.
  - intros Hlo Hhi. rewrite (Math_round_zero x); [reflexivity | |];
      unfold x; lra.
Qed.
